(** * DataCollector: a shallow embedding of [datacollector.py]

    The program walks a list of root folders, keeps the regular files whose
    suffix equals a requested extension (case-insensitively), reads them
    either one by one or through a pool of four threads, and hands the
    caller one text block per file.  [main] asks for the folders and the
    extension, concatenates the non-empty blocks into a temporary file and
    copies it to the output file.

    What is modelled, and how:
    - a [pathlib.Path] is the list of its components ([path]);
    - the file system is a finite tree ([node]) of files, directories with
      their read and search permissions, symbolic links and other entries;
      [stat] follows a path through it as a POSIX system does for an
      unprivileged user, and fails with an [errno]; [Path.exists],
      [is_dir] and [is_file] are those of pathlib 3.11: they answer
      [False] on ENOENT and ENOTDIR and let the other errors through;
    - every leaf carries what an attempt to read it gives (its bytes, or
      the message of the [OSError] raised), so that a file that is listed
      but cannot be read, or that is gone by the time it is opened, is a
      leaf whose read fails;
    - a Python [str] is the string of its UTF-8 bytes, a lone surrogate
      (a byte of a file name that is not UTF-8) being a byte that makes
      the string invalid; [str.lower] is a parameter [lower] of the
      definitions that use it;
    - an exception that nothing catches ends the function that runs: such
      a function returns what it did and the exception ([exn]);
    - printing with [print] and logging are events, returned in the order
      in which the code performs them;
    - the order in which [as_completed] hands back the futures, and the
      order in which the threads of the pool print and log, are explicit
      schedules ([pool]);
    - [input] reads the next line of a list of lines, and raises [EOFError]
      when there is none.

    What is left out: the bar that [tqdm.tqdm] draws on standard error
    while the files are read (what it shows depends on the clock; it
    yields what the iterable it wraps yields); paths longer than PATH_MAX;
    links whose resolution is denied; a locale whose encoding is not
    UTF-8 and a platform whose line end is not the line feed; two
    different names of one file. *)

From Stdlib Require Import List String Ascii Bool Arith ZArith Lia Permutation.
From Stdlib Require Import DecimalString.
Import ListNotations.
Open Scope string_scope.
Open Scope list_scope.

(** ** Strings *)

Module Str.

Definition nl : string := String "010" "".
Definition cr : ascii := "013"%char.
Definition lf : ascii := "010"%char.

(** [c.lower()] on one ASCII character. *)
Definition lower_ascii (c : ascii) : ascii :=
  let n := nat_of_ascii c in
  if ((65 <=? n)%nat && (n <=? 90)%nat)%bool then ascii_of_nat (n + 32) else c.

(** [s.lower()] for a string of ASCII characters: the other bytes are
    kept. *)
Fixpoint lower (s : string) : string :=
  match s with
  | EmptyString => EmptyString
  | String c r => String (lower_ascii c) (lower r)
  end.

(** [s.rfind('.')]: the index of the last dot, [None] for Python's -1. *)
Fixpoint rfind_dot (s : string) : option nat :=
  match s with
  | EmptyString => None
  | String c r =>
      match rfind_dot r with
      | Some i => Some (S i)
      | None => if Ascii.eqb c "." then Some 0 else None
      end
  end.

(** [bool(s)]: a string is true when it is not empty. *)
Definition truthy (s : string) : bool :=
  match s with EmptyString => false | String _ _ => true end.

(** [s.startswith('.')]. *)
Definition startswith_dot (s : string) : bool :=
  match s with String c _ => Ascii.eqb c "." | EmptyString => false end.

End Str.

(** ** Paths *)

Module Pathlib.

Definition path := list string.

(** [p.name]: the final component. *)
Definition name (p : path) : string := last p "".

(** [p.suffix]: the final component from its last dot on, when that dot
    is neither its first nor its last character; empty otherwise. *)
Definition suffix (p : path) : string :=
  let nm := name p in
  match Str.rfind_dot nm with
  | Some i =>
      if ((0 <? i)%nat && (i <? String.length nm - 1)%nat)%bool
      then substring i (String.length nm - i) nm
      else ""
  | None => ""
  end.

(** [str(p)]. *)
Definition path_str (p : path) : string :=
  match p with
  | [] => "."
  | _ => String.concat "/" p
  end.

(** [p == q]. *)
Definition path_eqb (p q : path) : bool :=
  if list_eq_dec string_dec p q then true else false.

(** [q] lies strictly below [root]. *)
Definition descendant (root q : path) : Prop :=
  exists rel, rel <> [] /\ q = root ++ rel.

End Pathlib.

(** ** The file system *)

Module FS.
Import Pathlib.

(** What [open(p).read()] meets at a leaf: the bytes of the file, or an
    [OSError] with its message. *)
Inductive read_outcome :=
| Bytes (b : string)
| OSError (e : string).

(** A regular file; a directory, whether it may be read (listed) and
    searched (passed through), and its entries in scan order; anything
    else that is not a link (a socket, a FIFO, a device); a symbolic link
    with what it resolves to; a symbolic link that resolves to nothing (its
    target is missing, or it loops). *)
#[local] Set Warnings "-register-all".
Inductive node :=
| File (c : read_outcome)
| Dir (r x : bool) (entries : list (string * node))
| Special (c : read_outcome)
| Link (target : node)
| Dangling.
#[local] Set Warnings "register-all".

Inductive errno := ENOENT | ENOTDIR | EACCES | ENAMETOOLONG | EISDIR.

(** The longest name of an entry, in bytes. *)
Definition NAME_MAX : nat := 255.

(** An exception that nothing catches. *)
Inductive exn :=
| OSErr (e : errno) (p : path)
| UnicodeEncodeErr
| EOFErr.

(** What a call gives: a value, or an exception. *)
Inductive result (A : Type) :=
| Ok (a : A)
| Raise (e : exn).
Arguments Ok {A} a.
Arguments Raise {A} e.

Fixpoint find_entry (nm : string) (es : list (string * node)) : option node :=
  match es with
  | [] => None
  | (k, n) :: rest => if String.eqb k nm then Some n else find_entry nm rest
  end.

(** The node at the end of a chain of links. *)
Fixpoint deref (n : node) : node :=
  match n with
  | Link target => deref target
  | _ => n
  end.

Inductive stat_result :=
| Found (n : node)
| Fails (e : errno).

(** [os.stat(p)]: the node a path leads to, links followed; the node
    found is not a link. *)
Fixpoint stat (fs : node) (p : path) : stat_result :=
  match deref fs with
  | Dangling => Fails ENOENT
  | n =>
      match p with
      | [] => Found n
      | c :: rest =>
          match n with
          | Dir _ x es =>
              if negb x then Fails EACCES
              else if (NAME_MAX <? String.length c)%nat then Fails ENAMETOOLONG
              else
                match find_entry c es with
                | Some m => stat m rest
                | None => Fails ENOENT
                end
          | _ => Fails ENOTDIR
          end
      end
  end.

(** [_ignore_error]: the errors that [exists], [is_dir] and [is_file]
    turn into [False]. *)
Definition ignored (e : errno) : bool :=
  match e with
  | ENOENT | ENOTDIR => true
  | _ => false
  end.

(** The three tests of pathlib on what [stat] gives. *)
Definition test (holds : node -> bool) (fs : node) (p : path) : result bool :=
  match stat fs p with
  | Found n => Ok (holds n)
  | Fails e => if ignored e then Ok false else Raise (OSErr e p)
  end.

Definition exists_ : node -> path -> result bool :=
  test (fun _ => true).

Definition is_dir : node -> path -> result bool :=
  test (fun n => match n with Dir _ _ _ => true | _ => false end).

Definition is_file : node -> path -> result bool :=
  test (fun n => match n with File _ => true | _ => false end).

(** The paths that [rglob('*')] yields below a directory, relative to
    it: the entries of the directory itself, then, for each entry that is
    a directory and not a link, in scan order, the paths below it.  A
    directory that may not be read yields nothing ([scandir] raises
    [PermissionError], which the selectors of pathlib swallow), and
    neither do the directories of one that may not be searched.  The
    directory itself is not among the paths. *)
Fixpoint walk (n : node) : list path :=
  match n with
  | Dir r x es =>
      if r then
        map (fun e => [fst e]) es ++
        (if x then
           flat_map (fun e =>
                       match e with
                       | (nm, child) => map (cons nm) (walk child)
                       end) es
         else [])
      else []
  | _ => []
  end.

(** [folder.rglob('*')]. *)
Definition rglob (fs : node) (folder : path) : list path :=
  match stat fs folder with
  | Found n => map (app folder) (walk n)
  | Fails _ => []
  end.

End FS.

(** ** Decoding: [open(p, 'r', encoding='utf-8')] and [f.read()] *)

Module Codec.

Definition byte (c : ascii) : nat := nat_of_ascii c.

Definition between (lo hi : nat) (c : ascii) : bool :=
  ((lo <=? byte c)%nat && (byte c <=? hi)%nat)%bool.

(** A continuation byte, 80..BF. *)
Definition cont (c : ascii) : bool := between 128 191 c.

(** The second byte of a three-byte sequence: E0 excludes the overlong
    forms and ED the surrogates. *)
Definition second3 (lead c : ascii) : bool :=
  if (byte lead =? 224)%nat then between 160 191 c
  else if (byte lead =? 237)%nat then between 128 159 c
  else cont c.

(** The second byte of a four-byte sequence: F0 excludes the overlong
    forms and F4 the code points above 10FFFF. *)
Definition second4 (lead c : ascii) : bool :=
  if (byte lead =? 240)%nat then between 144 191 c
  else if (byte lead =? 244)%nat then between 128 143 c
  else cont c.

(** The strict UTF-8 decoder accepts the bytes. *)
Fixpoint utf8_valid (s : string) : bool :=
  match s with
  | EmptyString => true
  | String c0 r0 =>
      if (byte c0 <=? 127)%nat then utf8_valid r0
      else if between 194 223 c0 then
        match r0 with
        | String c1 r1 => (cont c1 && utf8_valid r1)%bool
        | _ => false
        end
      else if between 224 239 c0 then
        match r0 with
        | String c1 (String c2 r2) =>
            (second3 c0 c1 && cont c2 && utf8_valid r2)%bool
        | _ => false
        end
      else if between 240 244 c0 then
        match r0 with
        | String c1 (String c2 (String c3 r3)) =>
            (second4 c0 c1 && cont c2 && cont c3 && utf8_valid r3)%bool
        | _ => false
        end
      else false
  end.

(** Text mode with the default [newline=None]: CR LF and a lone CR are
    read as LF. *)
Fixpoint universal_newlines (s : string) : string :=
  match s with
  | EmptyString => EmptyString
  | String c r =>
      if Ascii.eqb c Str.cr then
        match r with
        | String c' r' =>
            if Ascii.eqb c' Str.lf
            then String Str.lf (universal_newlines r')
            else String Str.lf (universal_newlines r)
        | EmptyString => String Str.lf EmptyString
        end
      else String c (universal_newlines r)
  end.

(** [bytes.decode('utf-8')] followed by the newline translation. *)
Definition decode (b : string) : option string :=
  if utf8_valid b then Some (universal_newlines b) else None.

End Codec.

(** ** Properties of texts *)

Module Text.

(** The string holds a carriage return. *)
Fixpoint has_cr (s : string) : bool :=
  match s with
  | EmptyString => false
  | String c r => (Ascii.eqb c Str.cr || has_cr r)%bool
  end.

(** Every byte of the string is below 128. *)
Fixpoint ascii_only (s : string) : bool :=
  match s with
  | EmptyString => true
  | String c r => ((Codec.byte c <=? 127)%nat && ascii_only r)%bool
  end.

(** What is taken of [str.lower]: on a string of ASCII characters it
    lowers the letters A to Z and keeps the rest, and it gives the empty
    string for the empty string only. *)
Definition lowers (lower : string -> string) : Prop :=
  (forall s, ascii_only s = true -> lower s = Str.lower s)
  /\ (forall s, lower s = "" -> s = "").

End Text.

(** ** The collector: [collect_text_from_folders] *)

Module Collector.
Import Pathlib FS.

Inductive level := WARNING | ERROR.

(** What the program tells the outside: a line that [print] or [input]
    writes on standard output, a line that [print] writes on standard
    error, a record in [log.txt]. *)
Inductive event :=
| Stdout (msg : string)
| Stderr (msg : string)
| Log (lvl : level) (msg : string).

(** [print(msg, file=sys.stderr); logging.warning(msg)] and its
    [logging.error] twin. *)
Definition report (lvl : level) (msg : string) : list event :=
  [Stderr msg; Log lvl msg].

Definition folder_msg (folder : path) : string :=
  ("Папка '" ++ path_str folder ++
   "' не существует или не является директорией.")%string.

Definition decode_msg (file_path : path) : string :=
  ("Файл '" ++ path_str file_path ++
   "' не является текстовым или имеет неподдерживаемую кодировку. Пропускаю.")%string.

Definition read_msg (file_path : path) (e : string) : string :=
  ("Ошибка при чтении файла '" ++ path_str file_path ++ "': " ++ e)%string.

(** The block of a file that was read. *)
Definition block (file_path : path) (text : string) : string :=
  ("--- Содержимое файла: " ++ name file_path ++ " ---" ++ Str.nl ++
   text ++ Str.nl ++ Str.nl)%string.

(** The banner as the specification words it, for comparison with
    [block]. *)
Definition spec_block (file_path : path) (text : string) : string :=
  ("--- File content: " ++ name file_path ++ " ---" ++ Str.nl ++
   text ++ Str.nl ++ Str.nl)%string.

(** [str(e)] for the [OSError] that [open] raises. *)
Definition strerror (e : errno) (p : path) : string :=
  (match e with
   | ENOENT => "[Errno 2] No such file or directory: '"
   | ENOTDIR => "[Errno 20] Not a directory: '"
   | EACCES => "[Errno 13] Permission denied: '"
   | ENAMETOOLONG => "[Errno 36] File name too long: '"
   | EISDIR => "[Errno 21] Is a directory: '"
   end ++ path_str p ++ "'")%string.

(** The body of the [try]: the text, or the exception raised. *)
Inductive read_result :=
| Text (t : string)
| UnicodeDecodeError
| OtherException (e : string).

Definition read_leaf (c : read_outcome) : read_result :=
  match c with
  | Bytes b =>
      match Codec.decode b with
      | Some t => Text t
      | None => UnicodeDecodeError
      end
  | OSError e => OtherException e
  end.

Definition open_read (fs : node) (file_path : path) : read_result :=
  match stat fs file_path with
  | Found (File c) => read_leaf c
  | Found (Special c) => read_leaf c
  | Found (Dir _ _ _) => OtherException (strerror EISDIR file_path)
  | Found _ => OtherException (strerror ENOENT file_path)
  | Fails e => OtherException (strerror e file_path)
  end.

(** [read_file]: the block returned and the events on the way. *)
Definition read_file (fs : node) (file_path : path) : string * list event :=
  match open_read fs file_path with
  | Text text => (block file_path text, [])
  | UnicodeDecodeError => ("", report WARNING (decode_msg file_path))
  | OtherException e => ("", report ERROR (read_msg file_path e))
  end.

(** What discovery has done when it stops: the files appended to
    [all_files], the events, and the exception that stopped it, if one
    did. *)
Record discovery := {
  all_files : list path;
  said : list event;
  crashed : option exn
}.

(** Discovery goes on with [k] after [d], unless [d] was stopped. *)
Definition and_then (d k : discovery) : discovery :=
  match crashed d with
  | Some _ => d
  | None =>
      {| all_files := all_files d ++ all_files k;
         said := said d ++ said k;
         crashed := crashed k |}
  end.

Section Discover.

(** [str.lower]. *)
Variable lower : string -> string.
Variable fs : node.
Variable extension : string.

(** [not folder.exists() or not folder.is_dir()]. *)
Definition bad_root (folder : path) : result bool :=
  match exists_ fs folder with
  | Raise e => Raise e
  | Ok false => Ok true
  | Ok true =>
      match is_dir fs folder with
      | Raise e => Raise e
      | Ok b => Ok (negb b)
      end
  end.

(** [file_path.is_file() and
    file_path.suffix.lower() == extension.lower()]. *)
Definition matches (file_path : path) : result bool :=
  match is_file fs file_path with
  | Raise e => Raise e
  | Ok false => Ok false
  | Ok true =>
      Ok (String.eqb (lower (suffix file_path)) (lower extension))
  end.

(** The inner loop, over what [rglob] yields: the files appended, up to
    the first test that raises. *)
Fixpoint select (candidates : list path) : discovery :=
  match candidates with
  | [] => {| all_files := []; said := []; crashed := None |}
  | file_path :: rest =>
      match matches file_path with
      | Raise e => {| all_files := []; said := []; crashed := Some e |}
      | Ok b =>
          and_then
            {| all_files := if b then [file_path] else [];
               said := []; crashed := None |}
            (select rest)
      end
  end.

(** One turn of the loop over [folders]. *)
Definition visit (folder : path) : discovery :=
  match bad_root folder with
  | Raise e => {| all_files := []; said := []; crashed := Some e |}
  | Ok true =>
      {| all_files := []; said := report WARNING (folder_msg folder);
         crashed := None |}
  | Ok false => select (rglob fs folder)
  end.

(** Discovery: the loop that fills [all_files]. *)
Fixpoint discover (folders : list path) : discovery :=
  match folders with
  | [] => {| all_files := []; said := []; crashed := None |}
  | folder :: rest => and_then (visit folder) (discover rest)
  end.

End Discover.

(** [remove_at i l]: [l] without its element of index [i]. *)
Fixpoint remove_at {A} (i : nat) (l : list A) : list A :=
  match l, i with
  | [], _ => []
  | _ :: t, 0 => t
  | x :: t, S j => x :: remove_at j t
  end.

(** [complete n sched pending]: [n] times, the pending future that the
    schedule designates finishes and is handed back. *)
Fixpoint complete {A} (n : nat) (sched : list nat) (pending : list A) : list A :=
  match n with
  | 0 => []
  | S n' =>
      match pending with
      | [] => []
      | x :: _ =>
          let i := hd 0 sched mod List.length pending in
          nth i pending x :: complete n' (tl sched) (remove_at i pending)
      end
  end.

(** [as_completed(futures)]: every future once, in the order of
    completion. *)
Definition as_completed {A} (sched : list nat) (futures : list A) : list A :=
  complete (List.length futures) sched futures.

(** [put_at i x l]: [l] with [x] at index [i]. *)
Fixpoint put_at {A} (i : nat) (x : A) (l : list A) : list A :=
  match l, i with
  | [], _ => []
  | _ :: t, 0 => x :: t
  | y :: t, S j => y :: put_at j x t
  end.

Definition has_events (q : list event) : bool :=
  match q with [] => false | _ :: _ => true end.

(** [merge n mix queues]: [n] times, the thread that the schedule
    designates among those that still have something to say says its next
    event.  Each queue is what one read prints and logs, in its order. *)
Fixpoint merge (n : nat) (mix : list nat) (queues : list (list event))
  : list event :=
  match n with
  | 0 => []
  | S n' =>
      let live := filter has_events queues in
      match live with
      | [] => []
      | q0 :: _ =>
          let i := hd 0 mix mod List.length live in
          match nth i live q0 with
          | [] => []
          | e :: q => e :: merge n' (tl mix) (put_at i q live)
          end
      end
  end.

(** What the threads of the pool print and log, all of it. *)
Definition interleave (mix : list nat) (queues : list (list event))
  : list event :=
  merge (List.length (List.concat queues)) mix queues.

(** How the pool behaves in one run: the order in which the futures
    complete, and the order in which the threads print and log. *)
Record pool := { sched : list nat; mix : list nat }.

(** The two reading loops: what each [read_file] returned and did, in
    the order in which the results are yielded. *)
Definition read_all (fs : node) (sched : list nat)
    (use_multithreading : bool) (all_files : list path)
  : list (string * list event) :=
  if use_multithreading
  then as_completed sched (map (read_file fs) all_files)
  else map (read_file fs) all_files.

(** The events of the reads: one read after the other in the sequential
    loop, as the threads happen to run in the pool. *)
Definition read_events (mix : list nat) (use_multithreading : bool)
    (done : list (string * list event)) : list event :=
  if use_multithreading
  then interleave mix (map snd done)
  else flat_map snd done.

(** The generator object, step by step: what the first [next] does
    before anything is yielded (discovery), then what each further step
    does and yields.  [p] is how the pool behaves; the sequential branch
    does not look at it. *)
Record generator := {
  first : discovery;
  steps : list (string * list event)
}.

Definition text_generator (lower : string -> string) (fs : node)
    (p : pool) (folders : list path) (extension : string)
    (use_multithreading : bool) : generator :=
  let d := discover lower fs extension folders in
  {| first := d;
     steps :=
       match crashed d with
       | Some _ => []
       | None =>
           match all_files d with
           | [] => []
           | _ => read_all fs (sched p) use_multithreading (all_files d)
           end
       end |}.

(** The generator, run to its end: the blocks yielded, in order, the
    events, and the exception with which it ends when discovery was
    stopped. *)
Record yielded := {
  blocks : list string;
  events : list event;
  raised : option exn
}.

Definition collect_text_from_folders (lower : string -> string) (fs : node)
    (p : pool) (folders : list path) (extension : string)
    (use_multithreading : bool) : yielded :=
  let g := text_generator lower fs p folders extension use_multithreading in
  {| blocks := map fst (steps g);
     events :=
       said (first g) ++ read_events (mix p) use_multithreading (steps g);
     raised := crashed (first g) |}.

End Collector.

(** ** The end of [main]: aggregation and the final copy *)

Module Main.
Import Pathlib FS Collector.

(** [temp_output.txt] and the output file: their content, [None] when
    the file is not there.  Both live in the working directory, which is
    taken to lie outside the folders searched. *)
Record store := { temp_file : option string; output_file : option string }.

(** The chunks end to end. *)
Definition concat_all (chunks : list string) : string :=
  fold_right append "" chunks.

(** What the loop that writes the chunks has done when it stops: the
    text written to the temporary file, [has_content], the events of the
    steps of the generator that were run, and the exception that stopped
    it, if one did. *)
Record gathered := {
  text : string;
  has_content : bool;
  seen : list event;
  died : option exn
}.

(** The loop [for chunk in text_generator], from the state [(acc, has)]
    on.  A chunk that is not valid UTF-8 (it holds a lone surrogate, from
    a file name) makes [f.write] raise [UnicodeEncodeError]; the steps
    after it are not run. *)
Fixpoint drain (steps : list (string * list event)) (acc : string)
    (has : bool) : gathered :=
  match steps with
  | [] => {| text := acc; has_content := has; seen := []; died := None |}
  | (chunk, evs) :: rest =>
      if Str.truthy chunk then
        if Codec.utf8_valid chunk then
          let g := drain rest (acc ++ chunk)%string true in
          {| text := text g; has_content := has_content g;
             seen := evs ++ seen g; died := died g |}
        else
          {| text := acc; has_content := has; seen := evs;
             died := Some UnicodeEncodeErr |}
      else
        let g := drain rest acc has in
        {| text := text g; has_content := has_content g;
           seen := evs ++ seen g; died := died g |}
  end.

(** [main] from the call of the collector to the end of the [with]: the
    temporary file is opened, then the generator is run step by step. *)
Definition gather (lower : string -> string) (fs : node)
    (folders : list path) (extension : string) : gathered :=
  let g :=
    text_generator lower fs {| sched := []; mix := [] |} folders extension
      false in
  match crashed (first g) with
  | Some e =>
      {| text := ""; has_content := false; seen := said (first g);
         died := Some e |}
  | None =>
      let w := drain (steps g) "" false in
      {| text := text w; has_content := has_content w;
         seen := said (first g) ++ seen w; died := died w |}
  end.

(** How the body of the last [try] goes: reading the temporary file
    back raises; writing the output file raises and leaves [rest] in its
    place ([None] when the file was not even created); or both succeed.
    Removing the temporary file is taken to succeed. *)
Inductive attempt :=
| ReadFails (e : string)
| WriteFails (rest : option string) (e : string)
| Written.

Definition write_msg (e : string) : string :=
  ("Ошибка при записи файла: " ++ e)%string.

(** [output_name] is [str(output_file)]. *)
Definition done_msgs (output_name : string) : list event :=
  [Stdout ("Текст успешно собран в файл '" ++ output_name ++ "'.")%string;
   Stdout "Готово! Проверьте файл и log.txt для ошибок."].

(** The last [try] of [main], for an output file that is not the
    temporary file.  [read_text] reads the line ends of the temporary
    file as line feeds. *)
Definition finish (output_name : string) (a : attempt) (st : store)
  : store * list event :=
  match a with
  | Written =>
      ({| temp_file := None;
          output_file := option_map Codec.universal_newlines (temp_file st) |},
       done_msgs output_name)
  | ReadFails e =>
      ({| temp_file := None; output_file := output_file st |},
       report ERROR (write_msg e))
  | WriteFails rest e =>
      ({| temp_file := None; output_file := rest |},
       report ERROR (write_msg e))
  end.

(** The last [try] of [main].  When the output file is the temporary
    file itself, [temp_file.unlink()] removes it whatever came before. *)
Definition copy (same_file : bool) (output_name : string) (a : attempt)
    (st : store) : store * list event :=
  if same_file
  then ({| temp_file := None; output_file := None |},
        snd (finish output_name a st))
  else finish output_name a st.

Definition no_files_msg : string :=
  "Нет файлов с указанным расширением в заданных папках.".

(** How [main] ends: the two files, what was printed and logged, and the
    exception that ended it, if one did. *)
Record ended := {
  files : store;
  shown : list event;
  uncaught : option exn
}.

(** [main] from the call of the collector on, the answers to the
    prompts being given: the folders, the extension, and the output file
    kept, by its name as printed and by whether it is the temporary
    file. *)
Definition main (lower : string -> string) (fs : node)
    (folders : list path) (extension : string)
    (same_file : bool) (output_name : string) (a : attempt) (st : store)
  : ended :=
  let g := gather lower fs folders extension in
  match died g with
  | Some e =>
      {| files := {| temp_file := Some (text g);
                     output_file := output_file st |};
         shown := seen g; uncaught := Some e |}
  | None =>
      if negb (has_content g)
      then {| files := {| temp_file := None;
                          output_file := output_file st |};
              shown := seen g ++ [Stderr no_files_msg];
              uncaught := None |}
      else
        let (st', evs) :=
          copy same_file output_name a
            {| temp_file := Some (text g);
               output_file := output_file st |} in
        {| files := st'; shown := seen g ++ evs; uncaught := None |}
  end.

End Main.

(** ** The questions of [main] *)

Module Shell.
Import Pathlib FS Collector.

(** [input(prompt)] writes the prompt on standard output and takes the
    next line of standard input; when there is none it raises [EOFError],
    which [main] does not catch.  A question is a function of the lines
    still to be read: it gives the events, and the answer with the lines
    left, or [None] when the input ran out. *)
Definition asked (A : Type) : Type :=
  (list event * option (A * list string))%type.

(** [str(n)]. *)
Definition str_of_nat (n : nat) : string :=
  NilEmpty.string_of_uint (Nat.to_uint n).

Definition greeting : list event :=
  [Stdout "Привет! Это MVP агрегатор текста из файлов в папках.";
   Stdout "Программа соберёт весь текст из файлов с указанным расширением и сохранит в файл."].

Definition prompt_count : string :=
  "Сколько папок вы хотите обработать? (Введите число, например, 1 или 2): ".

Definition msg_positive : string :=
  "Число должно быть положительным. Попробуйте снова.".

Definition msg_number : string :=
  "Введите корректное число. Попробуйте снова.".

Definition prompt_path (i : nat) : string :=
  ("Введите путь к папке " ++ str_of_nat (i + 1) ++
   " (например, /home/user/docs или C:\Users\user\docs): ")%string.

Definition msg_path_empty : string :=
  "Путь не может быть пустым. Попробуйте снова.".

Definition prompt_extension : string :=
  "Введите расширение файлов (например, .txt или .md): ".

Definition msg_extension : string :=
  "Расширение должно начинаться с точки, например '.txt'. Попробуйте снова.".

Definition msg_processing : string :=
  "Обрабатываю файлы... Пожалуйста, подождите.".

Definition prompt_overwrite : string :=
  "Файл 'output.txt' уже существует. Перезаписать? (да/нет) или введите новое имя файла: ".

Definition prompt_new_name : string :=
  "Введите новое имя файла (без расширения, добавлю .txt): ".

Definition msg_name_empty : string := "Имя не может быть пустым.".

Section Console.

(** [int(s)], [None] for [ValueError]; [s.strip()]; [s.lower()];
    [pathlib.Path(s)]. *)
Variable int : string -> option Z.
Variable strip : string -> string.
Variable lower : string -> string.
Variable Path : string -> path.

(** The answer to the first question is refused. *)
Definition refused_count (line : string) : bool :=
  match int line with
  | Some n => negb (0 <? n)%Z
  | None => true
  end.

(** The first [while]: the number of folders. *)
Fixpoint ask_count (inp : list string) : asked Z :=
  match inp with
  | [] => ([Stdout prompt_count], None)
  | line :: rest =>
      match int line with
      | Some num_folders =>
          if (0 <? num_folders)%Z
          then ([Stdout prompt_count], Some (num_folders, rest))
          else
            let (evs, r) := ask_count rest in
            (Stdout prompt_count :: Stdout msg_positive :: evs, r)
      | None =>
          let (evs, r) := ask_count rest in
          (Stdout prompt_count :: Stdout msg_number :: evs, r)
      end
  end.

(** The inner [while] of the [for]: the path of folder [i]. *)
Fixpoint ask_path (i : nat) (inp : list string) : asked path :=
  match inp with
  | [] => ([Stdout (prompt_path i)], None)
  | line :: rest =>
      let path_str := strip line in
      if Str.truthy path_str
      then ([Stdout (prompt_path i)], Some (Path path_str, rest))
      else
        let (evs, r) := ask_path i rest in
        (Stdout (prompt_path i) :: Stdout msg_path_empty :: evs, r)
  end.

(** [for i in range(num_folders)], from [i] on, [n] folders to go. *)
Fixpoint ask_folders (n i : nat) (inp : list string) : asked (list path) :=
  match n with
  | 0 => ([], Some ([], inp))
  | S n' =>
      match ask_path i inp with
      | (evs, None) => (evs, None)
      | (evs, Some (folder, rest)) =>
          match ask_folders n' (S i) rest with
          | (evs', None) => (evs ++ evs', None)
          | (evs', Some (folders, rest')) =>
              (evs ++ evs', Some (folder :: folders, rest'))
          end
      end
  end.

(** The third [while]: the extension. *)
Fixpoint ask_extension (inp : list string) : asked string :=
  match inp with
  | [] => ([Stdout prompt_extension], None)
  | line :: rest =>
      let extension := strip line in
      if Str.startswith_dot extension
      then ([Stdout prompt_extension], Some (extension, rest))
      else
        let (evs, r) := ask_extension rest in
        (Stdout prompt_extension :: Stdout msg_extension :: evs, r)
  end.

(** [main] down to the call of the collector: the folders and the
    extension that it passes. *)
Definition questions (inp : list string) : asked (list path * string) :=
  match ask_count inp with
  | (evs1, None) => (greeting ++ evs1, None)
  | (evs1, Some (num_folders, rest1)) =>
      match ask_folders (Z.to_nat num_folders) 0 rest1 with
      | (evs2, None) => (greeting ++ evs1 ++ evs2, None)
      | (evs2, Some (folders, rest2)) =>
          match ask_extension rest2 with
          | (evs3, None) => (greeting ++ evs1 ++ evs2 ++ evs3, None)
          | (evs3, Some (extension, rest3)) =>
              (greeting ++ evs1 ++ evs2 ++ evs3 ++ [Stdout msg_processing],
               Some ((folders, extension), rest3))
          end
      end
  end.

(** The [while] that is run when [output.txt] exists: the name kept for
    the output file, as given to [pathlib.Path]. *)
Fixpoint choose_output (inp : list string) : asked string :=
  match inp with
  | [] => ([Stdout prompt_overwrite], None)
  | line :: rest =>
      let choice := lower (strip line) in
      if String.eqb choice "да"
      then ([Stdout prompt_overwrite], Some ("output.txt", rest))
      else if String.eqb choice "нет" then
        match rest with
        | [] => ([Stdout prompt_overwrite; Stdout prompt_new_name], None)
        | line' :: rest' =>
            let new_name := strip line' in
            if Str.truthy new_name
            then ([Stdout prompt_overwrite; Stdout prompt_new_name],
                  Some ((new_name ++ ".txt")%string, rest'))
            else
              let (evs, r) := choose_output rest' in
              (Stdout prompt_overwrite :: Stdout prompt_new_name
               :: Stdout msg_name_empty :: evs, r)
        end
      else ([Stdout prompt_overwrite], Some (choice, rest))
  end.

(** How [main] ends: on an exception that nothing catches, with the
    temporary file as it is then; on finding nothing to write; or past the
    final copy, with the output file kept and the two files. *)
Inductive outcome :=
| Died (e : exn) (temp : option string)
| NoContent
| Done (output_file : path) (st : Main.store).

(** [main].  [cwd] gives the content of a file of the working directory
    by its path, [None] when there is no such file; [a] is how the final
    copy goes. *)
Definition run (fs : node) (cwd : path -> option string)
    (a : Main.attempt) (inp : list string) : list event * outcome :=
  match questions inp with
  | (evs, None) => (evs, Died EOFErr None)
  | (evs, Some ((folders, extension), rest)) =>
      let g := Main.gather lower fs folders extension in
      match Main.died g with
      | Some e => (evs ++ Main.seen g, Died e (Some (Main.text g)))
      | None =>
          if negb (Main.has_content g)
          then (evs ++ Main.seen g ++ [Stderr Main.no_files_msg], NoContent)
          else
            match
              match cwd (Path "output.txt") with
              | Some _ => choose_output rest
              | None => ([], Some ("output.txt", rest))
              end
            with
            | (evs2, None) =>
                (evs ++ Main.seen g ++ evs2,
                 Died EOFErr (Some (Main.text g)))
            | (evs2, Some (output_name, _)) =>
                let output_file := Path output_name in
                let (st', evs3) :=
                  Main.copy
                    (path_eqb output_file (Path "temp_output.txt"))
                    (path_str output_file) a
                    {| Main.temp_file := Some (Main.text g);
                       Main.output_file := cwd output_file |} in
                (evs ++ Main.seen g ++ evs2 ++ evs3, Done output_file st')
            end
      end
  end.

(** The line is left aside by the question about the paths. *)
Definition blank (line : string) : bool := negb (Str.truthy (strip line)).

(** The line is left aside by the question about the extension. *)
Definition no_dot (line : string) : bool :=
  negb (Str.startswith_dot (strip line)).

End Console.

(** Stand-ins to run the questions on: decimal digits for [int], and the
    identity for [strip] and [lower]. *)
Definition int_digit (s : string) : option Z :=
  match s with
  | String c EmptyString =>
      let n := nat_of_ascii c in
      if ((48 <=? n)%nat && (n <=? 57)%nat)%bool
      then Some (Z.of_nat (n - 48)) else None
  | _ => None
  end.

Definition same (s : string) : string := s.

Definition one_part (s : string) : path := [s].

End Shell.

(** ** What a run leaves in the log *)

Module Report.
Import Pathlib FS Collector.

(** The event is a record of [log.txt]. *)
Definition is_log (e : event) : bool :=
  match e with Log _ _ => true | _ => false end.

(** The folder is skipped with a warning. *)
Definition skipped (fs : node) (folder : path) : bool :=
  match bad_root fs folder with
  | Ok true => true
  | _ => false
  end.

(** The body of the [try] of [read_file] raises. *)
Definition read_fails (fs : node) (file_path : path) : bool :=
  match open_read fs file_path with Text _ => false | _ => true end.

End Report.
(** ** Small trees to run the definitions on *)

Module Demo.
Import Pathlib FS Collector.

Definition latin1 : string := String (ascii_of_nat 255) "".

Definition tree : node :=
  Dir true true
    [("docs",
      Dir true true
        [("a.txt", File (Bytes "hello"));
         ("archive.txt.gz", File (Bytes "zip"));
         (".txt", File (Bytes "hidden"));
         ("sub.txt", Dir true true [("b.TXT", File (Bytes "world"))]);
         ("bin.txt", File (Bytes latin1));
         ("locked.txt", File (OSError "[Errno 13] Permission denied"))]);
     ("empty", Dir true true [("readme.md", File (Bytes "x"))])].

(** A schedule that leaves the pool to itself. *)
Definition calm : pool := {| sched := []; mix := [] |}.

(** A schedule that stirs it. *)
Definition stirred : pool := {| sched := [3; 0; 5]; mix := [1; 0; 2; 1] |}.

End Demo.

(** A folder none of whose text files can be read. *)

Module Broken.
Import Pathlib FS Collector.

Definition tree : node :=
  Dir true true
    [("data",
      Dir true true
        [("x.txt", File (Bytes Demo.latin1));
         ("y.txt", File (OSError "[Errno 5] Input/output error"))])].

End Broken.

(** Folders that may not be read or searched, links, and names that are
    not text. *)

Module Hard.
Import Pathlib FS Collector.

Definition shared : node :=
  Dir true true [("deep.txt", File (Bytes "deep"))].

Definition tree : node :=
  Dir true true
    [("open",
      Dir true true
        [("note.txt", File (Bytes "note"));
         ("alias.txt", Link (File (Bytes "linked")));
         ("lost.txt", Dangling);
         ("mirror", Link shared);
         ("sealed", Dir false true [("in.txt", File (Bytes "sealed"))])]);
     ("shut", Dir true false [("key.txt", File (Bytes "key"))]);
     ("odd",
      Dir true true
        [((Demo.latin1 ++ ".txt")%string, File (Bytes "odd"))]);
     ("plain.txt", File (Bytes "plain"))].

(** A name of three hundred bytes. *)
Definition long_name : string :=
  String.concat "" (repeat "aaaaaaaaaa" 30).

End Hard.

(** * Properties *)

Import Pathlib FS Collector.

(** ** The definitions at work *)

Example suffix_last_only : suffix ["docs"; "archive.txt.gz"] = ".gz".
Proof. reflexivity. Qed.

Example suffix_dot_file : suffix ["docs"; ".txt"] = "".
Proof. reflexivity. Qed.

Example suffix_trailing_dot : suffix ["notes."] = "".
Proof. reflexivity. Qed.

Example lower_mixed : Str.lower ".TxT" = ".txt".
Proof. reflexivity. Qed.

Example decode_two_bytes :
  Codec.decode (String (ascii_of_nat 195) (String (ascii_of_nat 169) ""))
  = Some (String (ascii_of_nat 195) (String (ascii_of_nat 169) "")).
Proof. reflexivity. Qed.

Example decode_overlong :
  Codec.decode (String (ascii_of_nat 192) (String (ascii_of_nat 128) ""))
  = None.
Proof. reflexivity. Qed.

Example decode_crlf :
  Codec.decode (String "a" (String Str.cr (String Str.lf "b")))
  = Some (String "a" (String Str.lf "b")).
Proof. reflexivity. Qed.

Example rglob_order :
  rglob Demo.tree []
  = [["docs"]; ["empty"];
     ["docs"; "a.txt"]; ["docs"; "archive.txt.gz"]; ["docs"; ".txt"];
     ["docs"; "sub.txt"]; ["docs"; "bin.txt"]; ["docs"; "locked.txt"];
     ["docs"; "sub.txt"; "b.TXT"]; ["empty"; "readme.md"]].
Proof. reflexivity. Qed.

Example rglob_stops_at_links_and_sealed_folders :
  rglob Hard.tree ["open"]
  = [["open"; "note.txt"]; ["open"; "alias.txt"]; ["open"; "lost.txt"];
     ["open"; "mirror"]; ["open"; "sealed"]].
Proof. reflexivity. Qed.

Example stat_follows_links :
  stat Hard.tree ["open"; "mirror"; "deep.txt"]
  = Found (File (Bytes "deep")).
Proof. reflexivity. Qed.

Example exists_raises_below_shut_folder :
  exists_ Hard.tree ["shut"; "key.txt"]
  = Raise (OSErr EACCES ["shut"; "key.txt"]).
Proof. reflexivity. Qed.

Example exists_raises_on_long_name :
  exists_ Hard.tree [Hard.long_name]
  = Raise (OSErr ENAMETOOLONG [Hard.long_name]).
Proof. reflexivity. Qed.

Example discover_docs :
  discover Str.lower Demo.tree ".txt" [["docs"]]
  = {| all_files :=
         [["docs"; "a.txt"]; ["docs"; "bin.txt"]; ["docs"; "locked.txt"];
          ["docs"; "sub.txt"; "b.TXT"]];
       said := []; crashed := None |}.
Proof. reflexivity. Qed.

Example discover_dies_in_shut_folder :
  discover Str.lower Hard.tree ".txt" [["open"]; ["shut"]; ["nope"]]
  = {| all_files := [["open"; "note.txt"]; ["open"; "alias.txt"]];
       said := [];
       crashed := Some (OSErr EACCES ["shut"; "key.txt"]) |}.
Proof. reflexivity. Qed.

Example sequential_docs :
  blocks (collect_text_from_folders Str.lower Demo.tree Demo.calm
            [["docs"]] ".txt" false)
  = [block ["a.txt"] "hello"; ""; ""; block ["b.TXT"] "world"].
Proof. reflexivity. Qed.

Example concurrent_docs :
  blocks (collect_text_from_folders Str.lower Demo.tree Demo.stirred
            [["docs"]] ".txt" true)
  = [block ["b.TXT"] "world"; block ["a.txt"] "hello"; ""; ""].
Proof. reflexivity. Qed.

Example main_docs :
  Main.main Str.lower Demo.tree [["docs"]] ".txt" false "output.txt"
    Main.Written {| Main.temp_file := None; Main.output_file := None |}
  = {| Main.files :=
         {| Main.temp_file := None;
            Main.output_file :=
              Some (block ["a.txt"] "hello"
                    ++ block ["b.TXT"] "world")%string |};
       Main.shown :=
         report WARNING (decode_msg ["docs"; "bin.txt"])
         ++ report ERROR
              (read_msg ["docs"; "locked.txt"]
                 "[Errno 13] Permission denied")
         ++ Main.done_msgs "output.txt";
       Main.uncaught := None |}.
Proof. reflexivity. Qed.

Example main_nothing_found :
  Main.main Str.lower Demo.tree [["empty"]] ".txt" false "output.txt"
    Main.Written {| Main.temp_file := None; Main.output_file := None |}
  = {| Main.files :=
         {| Main.temp_file := None; Main.output_file := None |};
       Main.shown := [Stderr Main.no_files_msg];
       Main.uncaught := None |}.
Proof. reflexivity. Qed.

Example main_dies_on_a_name_that_is_not_text :
  Main.main Str.lower Hard.tree [["open"]; ["odd"]] ".txt" false
    "output.txt" Main.Written
    {| Main.temp_file := None; Main.output_file := None |}
  = {| Main.files :=
         {| Main.temp_file :=
              Some (block ["note.txt"] "note"
                    ++ block ["alias.txt"] "linked")%string;
            Main.output_file := None |};
       Main.shown := [];
       Main.uncaught := Some UnicodeEncodeErr |}.
Proof. reflexivity. Qed.

(** ** Discovery *)

Lemma and_then_ok d k :
  crashed d = None ->
  and_then d k
  = {| all_files := all_files d ++ all_files k;
       said := said d ++ said k;
       crashed := crashed k |}.
Proof. intros H. unfold and_then. now rewrite H. Qed.

Lemma and_then_crashed d k e : crashed d = Some e -> and_then d k = d.
Proof. intros H. unfold and_then. now rewrite H. Qed.

Lemma and_then_assoc d1 d2 d3 :
  and_then (and_then d1 d2) d3 = and_then d1 (and_then d2 d3).
Proof.
  destruct d1 as [f1 s1 [e1|]], d2 as [f2 s2 [e2|]]; unfold and_then; simpl;
    try reflexivity.
  destruct (crashed d3); now rewrite !app_assoc.
Qed.

Lemma and_then_files d k p :
  In p (all_files (and_then d k)) ->
  In p (all_files d) \/ In p (all_files k).
Proof.
  unfold and_then. destruct (crashed d); simpl; [now left|].
  apply in_app_or.
Qed.

Section Discovery.
Variable lower : string -> string.
Variable fs : node.
Variable extension : string.

Lemma discover_app a b :
  discover lower fs extension (a ++ b)
  = and_then (discover lower fs extension a) (discover lower fs extension b).
Proof.
  induction a as [|f a IH]; simpl.
  - now destruct (discover lower fs extension b).
  - now rewrite IH, and_then_assoc.
Qed.

Lemma walk_nonempty n rel : In rel (walk n) -> rel <> [].
Proof.
  destruct n as [c|r x es|c|t|]; simpl; try tauto.
  destruct r; [|intros []].
  rewrite in_app_iff, in_map_iff.
  intros [[e [<- _]]|H]; try discriminate.
  destruct x; [|destruct H].
  apply in_flat_map in H as [[nm child] [_ H]].
  apply in_map_iff in H as [y [<- _]]. discriminate.
Qed.

Lemma rglob_descendant folder p :
  In p (rglob fs folder) -> descendant folder p.
Proof.
  unfold rglob. destruct (stat fs folder) as [n|e]; [|intros []].
  rewrite in_map_iff. intros [rel [<- H]].
  exists rel. split; [now apply walk_nonempty in H | reflexivity].
Qed.

Lemma matches_inv p :
  matches lower fs extension p = Ok true ->
  is_file fs p = Ok true /\ lower (suffix p) = lower extension.
Proof.
  unfold matches. destruct (is_file fs p) as [[|]|e]; try discriminate.
  intros [= H]. now apply String.eqb_eq in H.
Qed.

Lemma select_inv candidates p :
  In p (all_files (select lower fs extension candidates)) ->
  In p candidates /\ matches lower fs extension p = Ok true.
Proof.
  induction candidates as [|q rest IH]; simpl; [intros []|].
  destruct (matches lower fs extension q) as [b|e] eqn:E; [|intros []].
  intros H. apply and_then_files in H as [H|H].
  - simpl in H. destruct b; [|destruct H].
    destruct H as [<-|[]]. now split; [left|].
  - destruct (IH H). now split; [right|].
Qed.

Lemma visit_inv folder p :
  In p (all_files (visit lower fs extension folder)) ->
  bad_root fs folder = Ok false
  /\ In p (rglob fs folder)
  /\ matches lower fs extension p = Ok true.
Proof.
  unfold visit. destruct (bad_root fs folder) as [[|]|e]; try (intros []).
  intros H. split; [reflexivity|]. now apply select_inv.
Qed.

Lemma discovered_inv folders p :
  In p (all_files (discover lower fs extension folders)) ->
  exists folder, In folder folders /\ bad_root fs folder = Ok false
                 /\ In p (rglob fs folder)
                 /\ matches lower fs extension p = Ok true.
Proof.
  induction folders as [|f rest IH]; simpl; [intros []|].
  intros H. apply and_then_files in H as [H|H].
  - exists f. split; [now left | now apply visit_inv].
  - destruct (IH H) as [folder [Hin Hrest]]. exists folder.
    split; [now right | exact Hrest].
Qed.

End Discovery.

(** C1.  Whatever the folders, the extension and what [str.lower] does,
    a path that discovery puts in [all_files] has a suffix equal to the
    extension once both are lowered, and lies below one of the folders
    given. *)
Theorem discovered_suffix_and_root lower fs extension folders p :
  In p (all_files (discover lower fs extension folders)) ->
  lower (suffix p) = lower extension
  /\ exists root, In root folders /\ descendant root p.
Proof.
  intros H. apply discovered_inv in H as [folder [Hin [_ [Hg Hm]]]].
  apply matches_inv in Hm as [_ Hs]. split; [exact Hs|].
  exists folder. split; [exact Hin | now apply rglob_descendant in Hg].
Qed.

Lemma discovered_suffix_and_root_witness :
  In ["docs"; "sub.txt"; "b.TXT"]
     (all_files (discover Str.lower Demo.tree ".txt" [["nope"]; ["docs"]]))
  /\ (Str.lower (suffix ["docs"; "sub.txt"; "b.TXT"]) = Str.lower ".txt"
      /\ exists root, In root [["nope"]; ["docs"]]
                      /\ descendant root ["docs"; "sub.txt"; "b.TXT"]).
Proof.
  assert (H : In ["docs"; "sub.txt"; "b.TXT"]
                 (all_files (discover Str.lower Demo.tree ".txt"
                               [["nope"]; ["docs"]])))
    by (vm_compute; tauto).
  split; [exact H | exact (discovered_suffix_and_root _ _ _ _ _ H)].
Defined.




(** ** Completion order *)

Section Completion.
Context {A : Type}.

Lemma remove_at_length (l : list A) : forall i,
  i < List.length l -> S (List.length (remove_at i l)) = List.length l.
Proof.
  induction l as [|x t IH]; intros i Hi; simpl in *; [lia|].
  destruct i as [|j]; [reflexivity|].
  simpl. rewrite IH; [reflexivity | lia].
Qed.

Lemma pick_perm (l : list A) : forall i d,
  i < List.length l -> Permutation (nth i l d :: remove_at i l) l.
Proof.
  induction l as [|x t IH]; intros i d Hi; simpl in *; [lia|].
  destruct i as [|j]; [reflexivity|].
  eapply perm_trans; [apply perm_swap|].
  constructor. apply IH. lia.
Qed.

Lemma complete_perm n : forall sched (pending : list A),
  List.length pending = n -> Permutation (complete n sched pending) pending.
Proof.
  induction n as [|n IH]; intros sched pending Hn.
  - destruct pending; [constructor | discriminate].
  - destruct pending as [|x t]; [discriminate|].
    cbn [complete].
    set (i := hd 0 sched mod List.length (x :: t)).
    assert (Hi : i < List.length (x :: t))
      by (apply Nat.mod_upper_bound; discriminate).
    rewrite IH.
    + now apply pick_perm.
    + pose proof (remove_at_length (x :: t) i Hi) as E.
      rewrite Hn in E. now injection E.
Qed.

Lemma as_completed_perm sched (futures : list A) :
  Permutation (as_completed sched futures) futures.
Proof. now apply complete_perm. Qed.

Lemma as_completed_length sched (futures : list A) :
  List.length (as_completed sched futures) = List.length futures.
Proof. apply Permutation_length, as_completed_perm. Qed.

End Completion.

(** ** The events of the pool *)

Lemma concat_live (queues : list (list event)) :
  List.concat (filter has_events queues) = List.concat queues.
Proof.
  induction queues as [|q rest IH]; simpl; [reflexivity|].
  destruct q; simpl; [exact IH | now rewrite IH].
Qed.

Lemma pop_perm (live : list (list event)) : forall i d e q,
  nth i live d = e :: q ->
  i < List.length live ->
  Permutation (e :: List.concat (put_at i q live)) (List.concat live).
Proof.
  induction live as [|q0 rest IH]; intros i d e q Hn Hi; simpl in *; [lia|].
  destruct i as [|j]; simpl.
  - subst q0. reflexivity.
  - rewrite <- (IH j d e q Hn) by lia. simpl.
    change (e :: q0 ++ List.concat (put_at j q rest))
      with ([e] ++ q0 ++ List.concat (put_at j q rest)).
    change (q0 ++ e :: List.concat (put_at j q rest))
      with (q0 ++ [e] ++ List.concat (put_at j q rest)).
    rewrite !app_assoc. apply Permutation_app_tail, Permutation_app_comm.
Qed.

Lemma merge_perm n : forall mix (queues : list (list event)),
  List.length (List.concat queues) = n ->
  Permutation (merge n mix queues) (List.concat queues).
Proof.
  induction n as [|n IH]; intros mix queues Hn.
  - simpl. destruct (List.concat queues); [constructor | discriminate].
  - cbn [merge]. rewrite <- (concat_live queues) in *.
    destruct (filter has_events queues) as [|q0 rest] eqn:El;
      [discriminate|].
    set (live := q0 :: rest) in *.
    set (i := hd 0 mix mod List.length live).
    assert (Hi : i < List.length live)
      by (apply Nat.mod_upper_bound; discriminate).
    assert (Hall : Forall (fun q => has_events q = true) live).
    { subst live. rewrite <- El. apply Forall_forall. intros q Hq.
      now apply filter_In in Hq. }
    destruct (nth i live q0) as [|e q] eqn:En.
    + exfalso. rewrite Forall_forall in Hall.
      specialize (Hall (nth i live q0) (nth_In live q0 Hi)).
      rewrite En in Hall. discriminate.
    + pose proof (pop_perm live i q0 e q En Hi) as HP.
      rewrite <- HP. constructor. apply IH.
      apply Permutation_length in HP. rewrite Hn in HP.
      cbn [List.length] in HP. lia.
Qed.

Lemma interleave_perm mix (queues : list (list event)) :
  Permutation (interleave mix queues) (List.concat queues).
Proof. now apply merge_perm. Qed.

(** ** Reading *)

Section Reading.
Variable fs : node.

Lemma read_all_sequential sched all_files :
  read_all fs sched false all_files = map (read_file fs) all_files.
Proof. reflexivity. Qed.

Lemma read_all_perm sched mt all_files :
  Permutation (read_all fs sched mt all_files)
              (map (read_file fs) all_files).
Proof.
  destruct mt; [apply as_completed_perm | reflexivity].
Qed.

Lemma read_all_length sched mt all_files :
  List.length (read_all fs sched mt all_files) = List.length all_files.
Proof.
  rewrite (Permutation_length (read_all_perm sched mt all_files)).
  apply length_map.
Qed.

Lemma read_all_nil sched mt : read_all fs sched mt [] = [].
Proof. now destruct mt. Qed.

Lemma read_events_perm mix mt done :
  Permutation (read_events mix mt done) (flat_map snd done).
Proof.
  destruct mt; simpl; [|reflexivity].
  rewrite interleave_perm, flat_map_concat_map. reflexivity.
Qed.

Lemma generator_steps lower p folders extension mt :
  steps (text_generator lower fs p folders extension mt)
  = match crashed (discover lower fs extension folders) with
    | Some _ => []
    | None =>
        read_all fs (sched p) mt
          (all_files (discover lower fs extension folders))
    end.
Proof.
  unfold text_generator. cbn [steps].
  destruct (crashed (discover lower fs extension folders)); [reflexivity|].
  destruct (all_files (discover lower fs extension folders));
    [now rewrite read_all_nil | reflexivity].
Qed.

Lemma collect_spec lower p folders extension mt :
  crashed (discover lower fs extension folders) = None ->
  collect_text_from_folders lower fs p folders extension mt
  = let d := discover lower fs extension folders in
    let done := read_all fs (sched p) mt (all_files d) in
    {| blocks := map fst done;
       events := said d ++ read_events (mix p) mt done;
       raised := None |}.
Proof.
  intros H. unfold collect_text_from_folders.
  rewrite generator_steps. cbn [first text_generator]. now rewrite H.
Qed.

Lemma collect_crashed lower p folders extension mt e :
  crashed (discover lower fs extension folders) = Some e ->
  collect_text_from_folders lower fs p folders extension mt
  = {| blocks := [];
       events := said (discover lower fs extension folders);
       raised := Some e |}.
Proof.
  intros H. unfold collect_text_from_folders.
  rewrite generator_steps. cbn [first text_generator]. rewrite H.
  destruct mt; simpl; now rewrite app_nil_r.
Qed.

Lemma read_file_block p :
  fst (read_file fs p)
  = match open_read fs p with
    | Text text => block p text
    | _ => ""
    end.
Proof. unfold read_file. now destruct (open_read fs p). Qed.

End Reading.

(** C3.  With [use_multithreading=False] the generator yields one block
    per file of [all_files], the block at each position being the one of
    the file at that position: its banner and text when it could be read,
    the empty string when it could not. *)
Theorem sequential_keeps_order lower fs pl folders extension i p :
  let d := discover lower fs extension folders in
  let run :=
    collect_text_from_folders lower fs pl folders extension false in
  crashed d = None ->
  nth_error (all_files d) i = Some p ->
  List.length (blocks run) = List.length (all_files d)
  /\ blocks run = map (fun q => fst (read_file fs q)) (all_files d)
  /\ nth_error (blocks run) i
     = Some match open_read fs p with
            | Text text => block p text
            | _ => ""
            end.
Proof.
  intros d run Hc H. subst run d.
  rewrite collect_spec by assumption. cbn [blocks].
  rewrite read_all_sequential, map_map.
  repeat split.
  - apply length_map.
  - rewrite nth_error_map, H. simpl. now rewrite read_file_block.
Qed.

Lemma sequential_keeps_order_witness :
  crashed (discover Str.lower Demo.tree ".txt" [["docs"]]) = None
  /\ nth_error (all_files (discover Str.lower Demo.tree ".txt" [["docs"]])) 1
     = Some ["docs"; "bin.txt"]
  /\ nth_error
       (blocks (collect_text_from_folders Str.lower Demo.tree Demo.calm
                  [["docs"]] ".txt" false)) 1
     = Some "".
Proof.
  assert (H : nth_error
                (all_files (discover Str.lower Demo.tree ".txt" [["docs"]])) 1
              = Some ["docs"; "bin.txt"]) by reflexivity.
  split; [reflexivity|]. split; [exact H|].
  exact (proj2 (proj2 (sequential_keeps_order Str.lower Demo.tree Demo.calm
                         [["docs"]] ".txt" 1 ["docs"; "bin.txt"]
                         eq_refl H))).
Defined.

(** C4.  A regular file whose bytes are not valid UTF-8 gives the empty
    block and one WARNING; one whose reading raises anything else gives
    the empty block and one ERROR.  Either way the loop goes on: the files
    before and after it give what they give on their own, in sequential
    mode at their places, in concurrent mode all among the results. *)
Theorem read_failure_contained fs sched before p after c :
  stat fs p = Found (File c) ->
  (forall text, read_leaf c <> Text text) ->
  match c with
  | Bytes b =>
      Codec.utf8_valid b = false
      /\ read_file fs p
         = ("", [Stderr (decode_msg p); Log WARNING (decode_msg p)])
  | OSError e =>
      read_file fs p
      = ("", [Stderr (read_msg p e); Log ERROR (read_msg p e)])
  end
  /\ read_all fs sched false (before ++ p :: after)
     = read_all fs sched false before
       ++ read_file fs p :: read_all fs sched false after
  /\ fst (read_file fs p) = ""
  /\ List.length (read_all fs sched true (before ++ p :: after))
     = List.length before + 1 + List.length after
  /\ Permutation
       (read_all fs sched true (before ++ p :: after))
       (map (read_file fs) before ++ read_file fs p
        :: map (read_file fs) after).
Proof.
  intros Hl Hbad.
  assert (Hr : open_read fs p = read_leaf c)
    by (unfold open_read; now rewrite Hl).
  assert (H1 : match c with
               | Bytes b =>
                   Codec.utf8_valid b = false
                   /\ read_file fs p
                      = ("", [Stderr (decode_msg p);
                              Log WARNING (decode_msg p)])
               | OSError e =>
                   read_file fs p
                   = ("", [Stderr (read_msg p e); Log ERROR (read_msg p e)])
               end).
  { unfold read_file. rewrite Hr. destruct c as [b|e]; simpl in *.
    - unfold Codec.decode in *. destruct (Codec.utf8_valid b).
      + now destruct (Hbad (Codec.universal_newlines b)).
      + split; reflexivity.
    - reflexivity. }
  split; [exact H1|]. split; [|split; [|split]].
  - rewrite !read_all_sequential, map_app. reflexivity.
  - destruct c; [now rewrite (proj2 H1) | now rewrite H1].
  - rewrite read_all_length, length_app. simpl. lia.
  - rewrite (read_all_perm fs sched true), map_app. reflexivity.
Qed.

Lemma read_failure_contained_witness :
  stat Demo.tree ["docs"; "bin.txt"] = Found (File (Bytes Demo.latin1))
  /\ (forall text, read_leaf (Bytes Demo.latin1) <> Text text)
  /\ read_file Demo.tree ["docs"; "bin.txt"]
     = ("", [Stderr (decode_msg ["docs"; "bin.txt"]);
             Log WARNING (decode_msg ["docs"; "bin.txt"])]).
Proof.
  assert (H1 : stat Demo.tree ["docs"; "bin.txt"]
               = Found (File (Bytes Demo.latin1))) by reflexivity.
  assert (H2 : forall text, read_leaf (Bytes Demo.latin1) <> Text text)
    by (intros text; vm_compute; discriminate).
  split; [exact H1|]. split; [exact H2|].
  exact (proj2 (proj1 (read_failure_contained Demo.tree [2; 0]
                         [["docs"; "a.txt"]] ["docs"; "bin.txt"]
                         [["docs"; "locked.txt"]] _ H1 H2))).
Defined.

(** C5 as stated fails: the banner of the specification is not the
    banner of the code. *)
Lemma spec_banner_differs :
  ~ (forall fs p b text,
        stat fs p = Found (File (Bytes b)) ->
        Codec.decode b = Some text ->
        fst (read_file fs p) = spec_block p text).
Proof.
  intros H.
  specialize (H Demo.tree ["docs"; "a.txt"] "hello" "hello"
                eq_refl eq_refl).
  vm_compute in H. discriminate H.
Qed.

(** C5, amended.  For a regular file whose bytes decode to [text], the
    block is the banner [--- Содержимое файла: <name> ---], a line feed,
    [text], and two line feeds; nothing is printed or logged. *)
Theorem block_of_decoded_file fs p b text :
  stat fs p = Found (File (Bytes b)) ->
  Codec.decode b = Some text ->
  read_file fs p
  = (("--- Содержимое файла: " ++ name p ++ " ---" ++ Str.nl
      ++ text ++ Str.nl ++ Str.nl)%string, []).
Proof.
  intros Hl Hd. unfold read_file, open_read. rewrite Hl. simpl.
  now rewrite Hd.
Qed.

Lemma block_of_decoded_file_witness :
  stat Demo.tree ["docs"; "a.txt"] = Found (File (Bytes "hello"))
  /\ Codec.decode "hello" = Some "hello"
  /\ read_file Demo.tree ["docs"; "a.txt"]
     = (("--- Содержимое файла: " ++ "a.txt" ++ " ---" ++ Str.nl
         ++ "hello" ++ Str.nl ++ Str.nl)%string, []).
Proof.
  split; [reflexivity|]. split; [reflexivity|].
  exact (block_of_decoded_file Demo.tree ["docs"; "a.txt"] "hello" "hello"
           eq_refl eq_refl).
Defined.

(** C6.  When discovery finds no file, the generator yields nothing, in
    either mode, and does nothing beyond what discovery did. *)
Theorem no_match_no_block lower fs pl folders extension use_multithreading :
  all_files (discover lower fs extension folders) = [] ->
  collect_text_from_folders lower fs pl folders extension
    use_multithreading
  = {| blocks := [];
       events := said (discover lower fs extension folders);
       raised := crashed (discover lower fs extension folders) |}.
Proof.
  intros H. unfold collect_text_from_folders, text_generator.
  cbn [first steps]. rewrite H.
  destruct (crashed (discover lower fs extension folders));
    destruct use_multithreading; simpl; now rewrite app_nil_r.
Qed.

Lemma no_match_no_block_witness :
  all_files (discover Str.lower Demo.tree ".txt" [["empty"]; ["nope"]]) = []
  /\ blocks (collect_text_from_folders Str.lower Demo.tree Demo.stirred
               [["empty"]; ["nope"]] ".txt" true) = [].
Proof.
  split; [reflexivity|].
  now rewrite (no_match_no_block Str.lower Demo.tree Demo.stirred
                 [["empty"]; ["nope"]] ".txt" true eq_refl).
Defined.

(** ** The two modes compared *)

Lemma filter_perm {A} (f : A -> bool) (l l' : list A) :
  Permutation l l' -> Permutation (filter f l) (filter f l').
Proof.
  induction 1 as [|x l l' _ IH|x y l|l l' l'' _ IH1 _ IH2]; simpl.
  - constructor.
  - destruct (f x); [now constructor | exact IH].
  - destruct (f x), (f y); try reflexivity. apply perm_swap.
  - now transitivity (filter f l').
Qed.

(** Every order of completion is the order of some schedule: the model of
    [as_completed] leaves none out. *)
Lemma every_order_scheduled {A} (done : list A) : forall futures,
  Permutation futures done ->
  exists sched, as_completed sched futures = done.
Proof.
  induction done as [|y rest IH]; intros futures HP.
  - apply Permutation_sym, Permutation_nil in HP. subst. now exists [].
  - assert (Hin : In y futures)
      by (eapply Permutation_in; [apply Permutation_sym, HP | now left]).
    apply in_split in Hin as [l1 [l2 ->]].
    apply Permutation_sym, Permutation_cons_app_inv, Permutation_sym in HP.
    destruct (IH _ HP) as [sched Hs].
    exists (List.length l1 :: sched).
    unfold as_completed in *.
    assert (Hlen : List.length (l1 ++ y :: l2)
                   = S (List.length (l1 ++ l2)))
      by (rewrite !length_app; simpl; lia).
    rewrite Hlen.
    assert (Hi : List.length l1 mod List.length (l1 ++ y :: l2)
                 = List.length l1)
      by (apply Nat.mod_small; rewrite length_app; simpl; lia).
    assert (Hrm : remove_at (List.length l1) (l1 ++ y :: l2) = l1 ++ l2).
    { clear. induction l1 as [|a l1 IH1]; simpl; [reflexivity|].
      now rewrite IH1. }
    destruct (l1 ++ y :: l2) as [|x t] eqn:E.
    + destruct l1; discriminate.
    + cbn [complete hd tl]. rewrite Hi, Hrm, Hs. f_equal.
      rewrite <- E. rewrite app_nth2, Nat.sub_diag by lia. reflexivity.
Qed.

(** C7.  With [use_multithreading=True] the generator yields as many
    results as there are files in [all_files], empty blocks counted (none
    when an exception stopped discovery), and, whatever the order of
    completion, its non-empty blocks are, as a multiset, those of the
    sequential mode. *)
Theorem concurrent_same_blocks lower fs pl folders extension :
  let d := discover lower fs extension folders in
  let concurrent :=
    blocks (collect_text_from_folders lower fs pl folders extension true) in
  let sequential :=
    blocks (collect_text_from_folders lower fs pl folders extension false) in
  List.length concurrent
  = match crashed d with
    | Some _ => 0
    | None => List.length (all_files d)
    end
  /\ Permutation (filter Str.truthy concurrent)
                 (filter Str.truthy sequential)
  /\ List.length (read_all fs (sched pl) true (all_files d))
     = List.length (all_files d).
Proof.
  intros d concurrent sequential. subst concurrent sequential.
  unfold collect_text_from_folders. cbn [blocks].
  rewrite !generator_steps. fold d.
  split; [|split].
  - destruct (crashed d); [reflexivity|].
    rewrite length_map. apply read_all_length.
  - destruct (crashed d); [reflexivity|].
    apply filter_perm, Permutation_map.
    rewrite (read_all_perm fs (sched pl) true).
    now rewrite (read_all_perm fs (sched pl) false).
  - apply read_all_length.
Qed.

(** ** Valid text *)

Lemma append_nil_r (s : string) : (s ++ "")%string = s.
Proof. induction s as [|c s IH]; simpl; [reflexivity | now rewrite IH]. Qed.

Lemma append_assoc (a b c : string) :
  ((a ++ b) ++ c)%string = (a ++ (b ++ c))%string.
Proof. induction a as [|x a IH]; simpl; [reflexivity | now rewrite IH]. Qed.

Lemma append_length (a b : string) :
  String.length (a ++ b) = String.length a + String.length b.
Proof. induction a as [|x a IH]; simpl; [reflexivity | now rewrite IH]. Qed.

Lemma utf8_valid_unfold s :
  Codec.utf8_valid s
  = match s with
    | EmptyString => true
    | String c0 r0 =>
        if (Codec.byte c0 <=? 127)%nat then Codec.utf8_valid r0
        else if Codec.between 194 223 c0 then
          match r0 with
          | String c1 r1 => (Codec.cont c1 && Codec.utf8_valid r1)%bool
          | _ => false
          end
        else if Codec.between 224 239 c0 then
          match r0 with
          | String c1 (String c2 r2) =>
              (Codec.second3 c0 c1 && Codec.cont c2
               && Codec.utf8_valid r2)%bool
          | _ => false
          end
        else if Codec.between 240 244 c0 then
          match r0 with
          | String c1 (String c2 (String c3 r3)) =>
              (Codec.second4 c0 c1 && Codec.cont c2 && Codec.cont c3
               && Codec.utf8_valid r3)%bool
          | _ => false
          end
        else false
    end.
Proof. destruct s; reflexivity. Qed.

Lemma newlines_keep c r :
  Ascii.eqb c Str.cr = false ->
  Codec.universal_newlines (String c r)
  = String c (Codec.universal_newlines r).
Proof. intros H. simpl. now rewrite H. Qed.

Lemma cr_byte c : Ascii.eqb c Str.cr = true -> Codec.byte c = 13.
Proof. intros H. apply Ascii.eqb_eq in H. now subst. Qed.

Lemma high_not_cr c : 128 <= Codec.byte c -> Ascii.eqb c Str.cr = false.
Proof.
  intros H. destruct (Ascii.eqb c Str.cr) eqn:E; [|reflexivity].
  apply cr_byte in E. lia.
Qed.

Lemma between_bounds lo hi c :
  Codec.between lo hi c = true -> lo <= Codec.byte c <= hi.
Proof.
  unfold Codec.between. rewrite andb_true_iff, !Nat.leb_le. tauto.
Qed.

Lemma cont_high c : Codec.cont c = true -> 128 <= Codec.byte c.
Proof. intros H. apply between_bounds in H. lia. Qed.

Lemma second3_high l c : Codec.second3 l c = true -> 128 <= Codec.byte c.
Proof.
  unfold Codec.second3, Codec.cont.
  destruct (Codec.byte l =? 224)%nat; [|destruct (Codec.byte l =? 237)%nat];
    intros H; apply between_bounds in H; lia.
Qed.

Lemma second4_high l c : Codec.second4 l c = true -> 128 <= Codec.byte c.
Proof.
  unfold Codec.second4, Codec.cont.
  destruct (Codec.byte l =? 240)%nat; [|destruct (Codec.byte l =? 244)%nat];
    intros H; apply between_bounds in H; lia.
Qed.

(** A valid string, cut after its first character or first sequence. *)
Lemma utf8_valid_head s :
  Codec.utf8_valid s = true ->
  s = ""
  \/ exists h t,
       s = (h ++ t)%string /\ h <> "" /\ Codec.utf8_valid t = true
       /\ (forall u, Codec.utf8_valid (h ++ u) = Codec.utf8_valid u)
       /\ ((exists c, h = String c "" /\ Codec.byte c <= 127)
           \/ (forall u, Codec.universal_newlines (h ++ u)
                         = (h ++ Codec.universal_newlines u)%string)).
Proof.
  intros Hv. destruct s as [|c0 r0]; [now left|]. right.
  rewrite utf8_valid_unfold in Hv.
  destruct (Codec.byte c0 <=? 127)%nat eqn:E0.
  { exists (String c0 ""), r0. repeat split; try easy.
    - intros u. simpl. now rewrite E0.
    - left. exists c0. split; [reflexivity|]. now apply Nat.leb_le. }
  assert (H0 : Ascii.eqb c0 Str.cr = false).
  { apply high_not_cr. apply Nat.leb_gt in E0. lia. }
  destruct (Codec.between 194 223 c0) eqn:E1.
  { destruct r0 as [|c1 r1]; [discriminate|].
    apply andb_true_iff in Hv as [H1 Hr].
    exists (String c0 (String c1 "")), r1. repeat split; try easy.
    - intros u. cbn [append]. rewrite utf8_valid_unfold, E0, E1, H1.
      reflexivity.
    - right. intros u. cbn [append].
      rewrite !newlines_keep; auto using high_not_cr, cont_high. }
  destruct (Codec.between 224 239 c0) eqn:E2.
  { destruct r0 as [|c1 [|c2 r2]]; try discriminate.
    apply andb_true_iff in Hv as [Hv Hr].
    apply andb_true_iff in Hv as [H1 H2].
    exists (String c0 (String c1 (String c2 ""))), r2.
    repeat split; try easy.
    - intros u. cbn [append]. rewrite utf8_valid_unfold, E0, E1, E2, H1, H2.
      reflexivity.
    - right. intros u. cbn [append].
      rewrite !newlines_keep;
        eauto using high_not_cr, cont_high, second3_high. }
  destruct (Codec.between 240 244 c0) eqn:E3; [|discriminate].
  destruct r0 as [|c1 [|c2 [|c3 r3]]]; try discriminate.
  apply andb_true_iff in Hv as [Hv Hr].
  apply andb_true_iff in Hv as [Hv H3].
  apply andb_true_iff in Hv as [H1 H2].
  exists (String c0 (String c1 (String c2 (String c3 "")))), r3.
  repeat split; try easy.
  - intros u. cbn [append].
    rewrite utf8_valid_unfold, E0, E1, E2, E3, H1, H2, H3. reflexivity.
  - right. intros u. cbn [append].
    rewrite !newlines_keep;
      eauto using high_not_cr, cont_high, second4_high.
Qed.

Lemma by_length (P : string -> Prop) :
  (forall s, (forall t, String.length t < String.length s -> P t) -> P s) ->
  forall s, P s.
Proof.
  intros H s.
  assert (G : forall n t, String.length t < n -> P t).
  { induction n as [|n IH]; intros t Ht; [lia|].
    apply H. intros u Hu. apply IH. lia. }
  apply (G (S (String.length s))). lia.
Qed.

Lemma utf8_valid_app a : forall b,
  Codec.utf8_valid a = true -> Codec.utf8_valid b = true ->
  Codec.utf8_valid (a ++ b) = true.
Proof.
  induction a as [a IH] using by_length. intros b Ha Hb.
  destruct (utf8_valid_head a Ha) as [->|[h [t [-> [Hne [Ht [Hh _]]]]]]];
    [exact Hb|].
  rewrite append_assoc, Hh. apply IH; try assumption.
  rewrite append_length. destruct h; [congruence | simpl; lia].
Qed.

Lemma newlines_valid s :
  Codec.utf8_valid s = true ->
  Codec.utf8_valid (Codec.universal_newlines s) = true.
Proof.
  induction s as [s IH] using by_length. intros Hs.
  destruct (utf8_valid_head s Hs)
    as [->|[h [t [-> [Hne [Ht [Hh [[c [-> Hc]]|Hn]]]]]]]]; [reflexivity| |].
  - assert (IHt : Codec.utf8_valid (Codec.universal_newlines t) = true)
      by (apply IH; [simpl; lia | exact Ht]).
    cbn [append Codec.universal_newlines].
    destruct (Ascii.eqb c Str.cr) eqn:Ec.
    + destruct t as [|c' t']; [reflexivity|].
      destruct (Ascii.eqb c' Str.lf) eqn:El.
      * apply Ascii.eqb_eq in El. subst c'.
        rewrite utf8_valid_unfold. cbn.
        apply IH; [simpl; lia|].
        rewrite utf8_valid_unfold in Ht. exact Ht.
      * rewrite utf8_valid_unfold. exact IHt.
    + rewrite utf8_valid_unfold.
      apply Nat.leb_le in Hc. rewrite Hc. exact IHt.
  - rewrite Hn, Hh. apply IH; [|exact Ht].
    rewrite append_length. destruct h; [congruence | simpl; lia].
Qed.

Lemma newlines_no_cr s : Text.has_cr (Codec.universal_newlines s) = false.
Proof.
  induction s as [|c r IH]; [reflexivity|].
  cbn [Codec.universal_newlines].
  destruct (Ascii.eqb c Str.cr) eqn:Ec.
  - destruct r as [|c' r']; [reflexivity|].
    destruct (Ascii.eqb c' Str.lf) eqn:El; simpl.
    + apply Ascii.eqb_eq in El. subst c'.
      cbn [Codec.universal_newlines] in IH. simpl in IH. exact IH.
    + exact IH.
  - simpl. now rewrite Ec.
Qed.

Lemma newlines_length s :
  String.length (Codec.universal_newlines s) <= String.length s.
Proof.
  induction s as [|c r IH]; [reflexivity|].
  cbn [Codec.universal_newlines].
  destruct (Ascii.eqb c Str.cr) eqn:Ec.
  - destruct r as [|c' r']; [simpl; lia|].
    destruct (Ascii.eqb c' Str.lf) eqn:El.
    + rewrite newlines_keep in IH
        by (apply Ascii.eqb_eq in El; now subst c').
      cbn [String.length] in *. lia.
    + cbn [String.length] in *. lia.
  - cbn [String.length]. lia.
Qed.

Lemma newlines_same s :
  Text.has_cr s = false -> Codec.universal_newlines s = s.
Proof.
  induction s as [|c r IH]; [reflexivity|]. simpl.
  intros H. apply orb_false_iff in H as [Hc Hr].
  rewrite Hc. now rewrite IH.
Qed.

Lemma open_read_valid fs p text :
  open_read fs p = Text text -> Codec.utf8_valid text = true.
Proof.
  unfold open_read.
  assert (L : forall c, read_leaf c = Text text ->
                        Codec.utf8_valid text = true).
  { intros [b|e]; simpl; [|discriminate]. unfold Codec.decode.
    destruct (Codec.utf8_valid b) eqn:Hv; [|discriminate].
    intros [= <-]. now apply newlines_valid. }
  destruct (stat fs p) as [[c|r x es|c|t|]|e]; try discriminate; apply L.
Qed.

Lemma block_valid p text :
  Codec.utf8_valid (name p) = true ->
  Codec.utf8_valid text = true ->
  Codec.utf8_valid (block p text) = true.
Proof.
  intros Hn Ht. unfold block.
  repeat (apply utf8_valid_app; try assumption); reflexivity.
Qed.

Lemma concat_all_valid chunks :
  Forall (fun c => Codec.utf8_valid c = true) chunks ->
  Codec.utf8_valid (Main.concat_all chunks) = true.
Proof.
  induction 1 as [|c rest Hc _ IH]; [reflexivity|].
  simpl. now apply utf8_valid_app.
Qed.

Lemma read_file_valid fs p :
  Codec.utf8_valid (name p) = true ->
  Codec.utf8_valid (fst (read_file fs p)) = true.
Proof.
  intros Hn. unfold read_file.
  destruct (open_read fs p) as [t| |e] eqn:Er; try reflexivity.
  apply block_valid; [exact Hn | now apply open_read_valid in Er].
Qed.

Lemma ascii_valid b : Text.ascii_only b = true -> Codec.utf8_valid b = true.
Proof.
  induction b as [|c r IH]; [reflexivity|]. simpl.
  intros H. apply andb_true_iff in H as [Hc Hr].
  rewrite Hc. now apply IH.
Qed.

(** ** The end of [main] *)

Lemma drain_valid steps : forall acc has,
  Forall (fun s => Codec.utf8_valid (fst s) = true) steps ->
  Main.drain steps acc has
  = {| Main.text := (acc ++ Main.concat_all (map fst steps))%string;
       Main.has_content := (has || existsb Str.truthy (map fst steps))%bool;
       Main.seen := flat_map snd steps;
       Main.died := None |}.
Proof.
  induction steps as [|[chunk evs] rest IH]; intros acc has H; simpl.
  - now rewrite append_nil_r, orb_false_r.
  - inversion H as [|x l Hc Hr]; subst. cbn [fst] in Hc.
    destruct chunk as [|c chunk]; cbn [Str.truthy].
    + rewrite (IH acc has Hr). reflexivity.
    + rewrite Hc, (IH _ true Hr). cbn [Main.text Main.has_content
        Main.seen Main.died orb]. rewrite append_assoc.
      now rewrite orb_true_r.
Qed.

Lemma steps_valid fs files :
  (forall p, In p files -> Codec.utf8_valid (name p) = true) ->
  Forall (fun s => Codec.utf8_valid (fst s) = true)
         (map (read_file fs) files).
Proof.
  intros H. apply Forall_forall. intros s Hs.
  apply in_map_iff in Hs as [p [<- Hp]]. now apply read_file_valid, H.
Qed.

Lemma gather_spec lower fs folders extension :
  let d := discover lower fs extension folders in
  let done := map (read_file fs) (all_files d) in
  crashed d = None ->
  Forall (fun s => Codec.utf8_valid (fst s) = true) done ->
  Main.gather lower fs folders extension
  = {| Main.text := Main.concat_all (map fst done);
       Main.has_content := existsb Str.truthy (map fst done);
       Main.seen := said d ++ flat_map snd done;
       Main.died := None |}.
Proof.
  intros d done Hc Hv. unfold Main.gather.
  rewrite generator_steps. cbn [first text_generator sched].
  fold d. rewrite Hc, read_all_sequential. fold done.
  now rewrite (drain_valid done "" false Hv).
Qed.

Lemma gather_crashed lower fs folders extension e :
  crashed (discover lower fs extension folders) = Some e ->
  Main.gather lower fs folders extension
  = {| Main.text := ""; Main.has_content := false;
       Main.seen := said (discover lower fs extension folders);
       Main.died := Some e |}.
Proof.
  intros H. unfold Main.gather. cbn [first text_generator]. now rewrite H.
Qed.









(** ** The suffix *)

Lemma suffix_of_name p nm : name p = nm -> suffix p = suffix [nm].
Proof. intros H. unfold suffix. now rewrite H. Qed.

Lemma is_file_found fs p :
  is_file fs p = Ok true ->
  (exists c, stat fs p = Found (File c)) /\ is_dir fs p = Ok false.
Proof.
  unfold is_file, is_dir, test.
  destruct (stat fs p) as [[c|r x es|c|t|]|e]; try discriminate.
  - intros _. split; [now exists c | reflexivity].
  - destruct (ignored e); discriminate.
Qed.

(** C10.  For an extension that starts with a dot, as [main] passes it,
    a path that discovery returns is a regular file, not a directory, and
    is kept for its last suffix alone: it is not named [archive.txt.gz]
    when the extension is [.txt] in any case, and it is not named [.txt],
    whose suffix is empty. *)
Theorem only_final_suffix lower fs extension folders p :
  Text.lowers lower ->
  Str.startswith_dot extension = true ->
  In p (all_files (discover lower fs extension folders)) ->
  (exists c, stat fs p = Found (File c))
  /\ is_dir fs p = Ok false
  /\ lower (suffix p) = lower extension
  /\ suffix [".txt"] = ""
  /\ suffix ["archive.txt.gz"] = ".gz"
  /\ (lower extension = lower ".txt" -> name p <> "archive.txt.gz")
  /\ name p <> ".txt".
Proof.
  intros [Hascii Hsome] Hdot H.
  apply discovered_inv in H as [folder [_ [_ [_ Hm]]]].
  apply matches_inv in Hm as [Hf Hs].
  destruct (is_file_found fs p Hf) as [Hc Hd].
  split; [exact Hc|]. split; [exact Hd|]. split; [exact Hs|].
  split; [reflexivity|]. split; [reflexivity|]. split.
  - intros He Hn. rewrite (suffix_of_name _ _ Hn), He in Hs.
    change (suffix ["archive.txt.gz"]) with ".gz" in Hs.
    rewrite (Hascii ".gz" eq_refl), (Hascii ".txt" eq_refl) in Hs.
    discriminate.
  - intros Hn. rewrite (suffix_of_name _ _ Hn) in Hs.
    change (suffix [".txt"]) with "" in Hs.
    rewrite (Hascii "" eq_refl) in Hs. symmetry in Hs.
    apply Hsome in Hs. subst extension. discriminate.
Qed.

Lemma ascii_lowers : Text.lowers Str.lower.
Proof.
  split; [reflexivity|]. intros s H. destruct s; [reflexivity|discriminate].
Qed.

Lemma only_final_suffix_witness :
  Text.lowers Str.lower
  /\ Str.startswith_dot ".TXT" = true
  /\ In ["docs"; "a.txt"]
        (all_files (discover Str.lower Demo.tree ".TXT" [["docs"]]))
  /\ (exists c, stat Demo.tree ["docs"; "a.txt"] = Found (File c))
  /\ is_dir Demo.tree ["docs"; "a.txt"] = Ok false
  /\ ~ In ["docs"; "archive.txt.gz"]
          (all_files (discover Str.lower Demo.tree ".TXT" [["docs"]]))
  /\ ~ In ["docs"; ".txt"]
          (all_files (discover Str.lower Demo.tree ".TXT" [["docs"]]))
  /\ ~ In ["docs"; "sub.txt"]
          (all_files (discover Str.lower Demo.tree ".TXT" [["docs"]])).
Proof.
  assert (H : In ["docs"; "a.txt"]
                 (all_files (discover Str.lower Demo.tree ".TXT"
                               [["docs"]])))
    by (vm_compute; tauto).
  pose proof (only_final_suffix Str.lower Demo.tree ".TXT" [["docs"]]
                ["docs"; "a.txt"] ascii_lowers eq_refl H) as [Hc [Hd _]].
  split; [exact ascii_lowers|]. split; [reflexivity|].
  split; [exact H|]. split; [exact Hc|]. split; [exact Hd|].
  repeat split; vm_compute; intuition discriminate.
Defined.


(** * Further properties *)

(** ** Discovery over several folders *)

(** X4.  Discovery over two lists of folders one after the other is
    discovery over the first and then, unless an exception stopped it,
    over the second, files after files and events after events; nothing is
    set aside as already seen, so a folder given twice gives its files
    twice. *)
Theorem discover_concatenates lower fs extension folders1 folders2 folder :
  let d := discover lower fs extension (folders1 ++ folders2) in
  let d1 := discover lower fs extension folders1 in
  let d2 := discover lower fs extension folders2 in
  match crashed d1 with
  | Some _ => d = d1
  | None =>
      all_files d = all_files d1 ++ all_files d2
      /\ said d = said d1 ++ said d2
      /\ crashed d = crashed d2
  end
  /\ match crashed (discover lower fs extension [folder]) with
     | Some _ => True
     | None =>
         all_files (discover lower fs extension [folder; folder])
         = all_files (discover lower fs extension [folder])
           ++ all_files (discover lower fs extension [folder])
     end.
Proof.
  intros d d1 d2. subst d d1 d2. split.
  - rewrite discover_app.
    destruct (crashed (discover lower fs extension folders1)) as [e|] eqn:E.
    + now rewrite (and_then_crashed _ _ e E).
    + now rewrite (and_then_ok _ _ E).
  - change [folder; folder] with ([folder] ++ [folder]).
    rewrite discover_app.
    destruct (crashed (discover lower fs extension [folder])) eqn:E;
      [exact I|].
    now rewrite (and_then_ok _ _ E).
Qed.

(** ** Blocks, failures and what is logged *)

(** X5.  The block of a file is empty exactly when reading it raised: a
    file that is read gives its banner even when it holds nothing.  A read
    that raises leaves two events, one that succeeds none. *)
Theorem block_empty_iff_failed fs p :
  (fst (read_file fs p) = "" <-> Report.read_fails fs p = true)
  /\ List.length (snd (read_file fs p))
     = (if Report.read_fails fs p then 2 else 0)
  /\ Str.truthy (fst (read_file fs p)) = negb (Report.read_fails fs p).
Proof.
  unfold read_file, Report.read_fails.
  destruct (open_read fs p) as [t| |e]; cbn; repeat split;
    auto; discriminate.
Qed.

Section Counting.
Variable lower : string -> string.
Variable fs : node.
Variable extension : string.

Lemma select_said candidates :
  said (select lower fs extension candidates) = [].
Proof.
  induction candidates as [|q rest IH]; simpl; [reflexivity|].
  destruct (matches lower fs extension q) as [b|e]; [|reflexivity].
  unfold and_then. simpl. exact IH.
Qed.

Lemma visit_log folder :
  List.length (filter Report.is_log (said (visit lower fs extension folder)))
  = if Report.skipped fs folder then 1 else 0.
Proof.
  unfold visit, Report.skipped.
  destruct (bad_root fs folder) as [[|]|e]; try reflexivity.
  now rewrite select_said.
Qed.

Lemma discover_log folders :
  crashed (discover lower fs extension folders) = None ->
  List.length
    (filter Report.is_log (said (discover lower fs extension folders)))
  = List.length (filter (Report.skipped fs) folders).
Proof.
  induction folders as [|f rest IH]; simpl; [reflexivity|].
  destruct (crashed (visit lower fs extension f)) as [e|] eqn:E.
  - rewrite (and_then_crashed _ _ e E), E. discriminate.
  - rewrite (and_then_ok _ _ E). cbn [crashed said]. intros Hr.
    rewrite filter_app, length_app, visit_log, (IH Hr).
    now destruct (Report.skipped fs f).
Qed.

End Counting.

Lemma read_log fs files :
  List.length
    (filter Report.is_log (flat_map snd (map (read_file fs) files)))
  = List.length (filter (Report.read_fails fs) files).
Proof.
  induction files as [|p rest IH]; simpl; [reflexivity|].
  rewrite filter_app, length_app, IH.
  unfold read_file, Report.read_fails, report.
  now destruct (open_read fs p).
Qed.

(** X6.  When no exception stops discovery, the number of records that a
    run of the generator leaves in the log is, in either mode, the number
    of folders skipped plus the number of files of [all_files] whose
    reading raised: every such failure is logged once and nothing else
    is. *)
Theorem every_failure_logged_once lower fs pl folders extension mt :
  let d := discover lower fs extension folders in
  let run := collect_text_from_folders lower fs pl folders extension mt in
  crashed d = None ->
  List.length (filter Report.is_log (events run))
  = List.length (filter (Report.skipped fs) folders)
    + List.length (filter (Report.read_fails fs) (all_files d)).
Proof.
  intros d run Hc. subst run d.
  rewrite collect_spec by assumption. cbn [events].
  rewrite filter_app, length_app, discover_log by assumption.
  f_equal.
  rewrite (Permutation_length
             (filter_perm _ _ _ (read_events_perm (mix pl) mt _))).
  rewrite (Permutation_length
             (filter_perm _ _ _
                (Permutation_flat_map snd
                   (read_all_perm fs (sched pl) mt _)))).
  apply read_log.
Qed.

Lemma every_failure_logged_once_witness :
  crashed (discover Str.lower Demo.tree ".txt" [["docs"]; ["nope"]]) = None
  /\ List.length
       (filter Report.is_log
          (events (collect_text_from_folders Str.lower Demo.tree
                     Demo.stirred [["docs"]; ["nope"]] ".txt" true)))
     = 1 + 2.
Proof.
  split; [reflexivity|].
  exact (every_failure_logged_once Str.lower Demo.tree Demo.stirred
           [["docs"]; ["nope"]] ".txt" true eq_refl).
Defined.

(** X7.  The concurrent mode prints and logs what the sequential mode
    does, up to the order of the events of the reads; in both the events
    of discovery come first. *)
Theorem concurrent_same_events lower fs pl1 pl2 folders extension :
  Permutation
    (events (collect_text_from_folders lower fs pl1 folders extension true))
    (events (collect_text_from_folders lower fs pl2 folders extension
               false))
  /\ exists reads,
       events (collect_text_from_folders lower fs pl1 folders extension
                 true)
       = said (discover lower fs extension folders) ++ reads.
Proof.
  unfold collect_text_from_folders. cbn [events first text_generator].
  rewrite !generator_steps. split; [|eexists; reflexivity].
  apply Permutation_app_head.
  rewrite (read_events_perm (mix pl1) true),
          (read_events_perm (mix pl2) false).
  destruct (crashed (discover lower fs extension folders)); [reflexivity|].
  apply Permutation_flat_map.
  rewrite (read_all_perm fs (sched pl1) true).
  now rewrite (read_all_perm fs (sched pl2) false).
Qed.

(** ** [main] once the questions are answered *)

Lemma failed_steps fs files :
  (forall p, In p files -> Report.read_fails fs p = true) ->
  Forall (fun s => fst s = "") (map (read_file fs) files).
Proof.
  intros H. apply Forall_forall. intros s Hs.
  apply in_map_iff in Hs as [p [<- Hp]]. specialize (H p Hp).
  unfold Report.read_fails in H. unfold read_file.
  now destruct (open_read fs p).
Qed.

Lemma blocks_content fs files :
  existsb Str.truthy (map fst (map (read_file fs) files))
  = existsb (fun p => negb (Report.read_fails fs p)) files.
Proof.
  induction files as [|p rest IH]; simpl; [reflexivity|].
  rewrite IH. f_equal.
  unfold read_file, Report.read_fails.
  now destruct (open_read fs p).
Qed.

(** X9.  When no exception stops discovery and no file of [all_files]
    can be read, and so when there is none, [main] writes no output file:
    it removes the temporary file, leaves the output file as it was and
    says that no file has the extension, whatever would have become of
    the final copy. *)
Theorem main_without_content lower fs pl folders extension same_file
    output_name a st :
  crashed (discover lower fs extension folders) = None ->
  (forall p, In p (all_files (discover lower fs extension folders)) ->
             Report.read_fails fs p = true) ->
  Main.main lower fs folders extension same_file output_name a st
  = {| Main.files :=
         {| Main.temp_file := None;
            Main.output_file := Main.output_file st |};
       Main.shown :=
         events (collect_text_from_folders lower fs pl folders extension
                   false)
         ++ [Stderr Main.no_files_msg];
       Main.uncaught := None |}.
Proof.
  intros Hc H. unfold Main.main.
  assert (Hv : Forall (fun s => Codec.utf8_valid (fst s) = true)
                 (map (read_file fs)
                    (all_files (discover lower fs extension folders)))).
  { eapply Forall_impl; [|apply failed_steps, H].
    intros s Hs. now rewrite Hs. }
  rewrite (gather_spec lower fs folders extension Hc Hv).
  cbn [Main.died Main.has_content Main.seen Main.text].
  rewrite blocks_content.
  replace (existsb _ _) with false.
  - cbn [negb]. now rewrite collect_spec by assumption.
  - symmetry. apply not_true_is_false. intros E.
    apply existsb_exists in E as [p [Hin Hp]].
    rewrite (H p Hin) in Hp. discriminate.
Qed.

Lemma main_without_content_witness :
  crashed (discover Str.lower Broken.tree ".txt" [["data"]]) = None
  /\ (forall p,
        In p (all_files (discover Str.lower Broken.tree ".txt" [["data"]]))
        -> Report.read_fails Broken.tree p = true)
  /\ Main.output_file
       (Main.files
          (Main.main Str.lower Broken.tree [["data"]] ".txt" false
             "output.txt" Main.Written
             {| Main.temp_file := None; Main.output_file := Some "old" |}))
     = Some "old".
Proof.
  assert (H : forall p,
             In p (all_files (discover Str.lower Broken.tree ".txt"
                                [["data"]])) ->
             Report.read_fails Broken.tree p = true).
  { intros p [<-|[<-|[]]]; reflexivity. }
  split; [reflexivity|]. split; [exact H|].
  now rewrite (main_without_content Str.lower Broken.tree Demo.calm
                 [["data"]] ".txt" false "output.txt" Main.Written _
                 eq_refl H).
Defined.



(** ** The text that is read *)

(** X12.  The text read from a file is valid UTF-8, holds no carriage
    return and is no longer than the bytes of the file; it is the bytes of
    the file as they are when these hold no carriage return. *)
Theorem decoded_text fs p b text :
  stat fs p = Found (File (Bytes b)) ->
  open_read fs p = Text text ->
  Codec.utf8_valid text = true
  /\ Text.has_cr text = false
  /\ String.length text <= String.length b
  /\ (Text.has_cr b = false -> text = b).
Proof.
  intros Hl Hr. unfold open_read in Hr. rewrite Hl in Hr. simpl in Hr.
  unfold Codec.decode in Hr.
  destruct (Codec.utf8_valid b) eqn:Hv; [|discriminate].
  injection Hr as <-. repeat split.
  - now apply newlines_valid.
  - apply newlines_no_cr.
  - apply newlines_length.
  - apply newlines_same.
Qed.

Lemma decoded_text_witness :
  stat Demo.tree ["docs"; "a.txt"] = Found (File (Bytes "hello"))
  /\ open_read Demo.tree ["docs"; "a.txt"] = Text "hello"
  /\ Text.has_cr "hello" = false.
Proof.
  split; [reflexivity|]. split; [reflexivity|].
  exact (proj1 (proj2 (decoded_text Demo.tree ["docs"; "a.txt"] "hello"
                         "hello" eq_refl eq_refl))).
Defined.

(** X13.  When the names of the files of [all_files] are valid UTF-8,
    so is every block yielded, in either mode, and so is the text that
    [main] writes to the temporary file, which no write then stops: [main]
    gets out of its loop unless discovery was stopped. *)
Theorem yielded_text_valid lower fs pl folders extension mt :
  (forall p, In p (all_files (discover lower fs extension folders)) ->
             Codec.utf8_valid (name p) = true) ->
  Forall (fun blk => Codec.utf8_valid blk = true)
         (blocks (collect_text_from_folders lower fs pl folders extension
                    mt))
  /\ Codec.utf8_valid
       (Main.text (Main.gather lower fs folders extension)) = true
  /\ Main.died (Main.gather lower fs folders extension)
     = crashed (discover lower fs extension folders).
Proof.
  intros Hn. split.
  - unfold collect_text_from_folders. cbn [blocks].
    rewrite generator_steps.
    destruct (crashed (discover lower fs extension folders));
      [constructor|].
    apply Forall_forall. intros blk Hb.
    apply in_map_iff in Hb as [[blk' evs] [<- Hin]].
    apply (Permutation_in _ (read_all_perm fs (sched pl) mt _)) in Hin.
    apply in_map_iff in Hin as [p [Hp Hin]].
    rewrite <- Hp. now apply read_file_valid, Hn.
  - destruct (crashed (discover lower fs extension folders)) as [e|] eqn:E.
    + rewrite (gather_crashed _ _ _ _ e E). now split.
    + rewrite (gather_spec lower fs folders extension E
                 (steps_valid fs _ Hn)).
      cbn [Main.text Main.died]. split; [|reflexivity].
      apply concat_all_valid. rewrite map_map.
      apply Forall_forall. intros blk Hb.
      apply in_map_iff in Hb as [p [<- Hp]].
      now apply read_file_valid, Hn.
Qed.

Lemma yielded_text_valid_witness :
  (forall p,
     In p (all_files (discover Str.lower Demo.tree ".txt" [["docs"]])) ->
     Codec.utf8_valid (name p) = true)
  /\ Codec.utf8_valid
       (Main.text (Main.gather Str.lower Demo.tree [["docs"]] ".txt"))
     = true.
Proof.
  assert (H : forall p,
             In p (all_files (discover Str.lower Demo.tree ".txt"
                                [["docs"]])) ->
             Codec.utf8_valid (name p) = true).
  { intros p [<-|[<-|[<-|[<-|[]]]]]; reflexivity. }
  split; [exact H|].
  exact (proj1 (proj2 (yielded_text_valid Str.lower Demo.tree Demo.stirred
                         [["docs"]] ".txt" true H))).
Defined.

(** X14.  A regular file whose bytes are all below 128 is never taken
    for undecodable: it gives its block, with its line ends read as line
    feeds, and no event. *)
Theorem ascii_file_is_read fs p b :
  stat fs p = Found (File (Bytes b)) ->
  Text.ascii_only b = true ->
  read_file fs p = (block p (Codec.universal_newlines b), []).
Proof.
  intros Hl Ha. unfold read_file, open_read. rewrite Hl. simpl.
  unfold Codec.decode. now rewrite (ascii_valid b Ha).
Qed.

Lemma ascii_file_is_read_witness :
  stat Demo.tree ["docs"; "a.txt"] = Found (File (Bytes "hello"))
  /\ Text.ascii_only "hello" = true
  /\ read_file Demo.tree ["docs"; "a.txt"]
     = (block ["docs"; "a.txt"] (Codec.universal_newlines "hello"), []).
Proof.
  split; [reflexivity|]. split; [reflexivity|].
  exact (ascii_file_is_read Demo.tree ["docs"; "a.txt"] "hello"
           eq_refl eq_refl).
Defined.

(** ** The questions of [main] *)

Section Questions.
Variable int : string -> option Z.
Variable strip : string -> string.
Variable lower : string -> string.
Variable Path : string -> path.

Lemma ask_path_spec i inp :
  match snd (Shell.ask_path strip Path i inp) with
  | Some (folder, rest) =>
      exists blanks line,
        inp = blanks ++ line :: rest
        /\ forallb (Shell.blank strip) blanks = true
        /\ Shell.blank strip line = false
        /\ folder = Path (strip line)
  | None => forallb (Shell.blank strip) inp = true
  end.
Proof.
  induction inp as [|line rest IH]; [reflexivity|].
  cbn [Shell.ask_path forallb].
  assert (B : Shell.blank strip line = negb (Str.truthy (strip line)))
    by reflexivity.
  destruct (Str.truthy (strip line)); cbn [negb] in B.
  - exists [], line. now repeat split.
  - rewrite B.
    destruct (Shell.ask_path strip Path i rest) as [evs [[p rest']|]];
      cbn [snd andb] in *; [|exact IH].
    destruct IH as [blanks [l [-> [Hb [Hl Hp]]]]].
    exists (line :: blanks), l. cbn [forallb]. rewrite B, Hb.
    now repeat split.
Qed.

Lemma filter_blanks blanks :
  forallb (Shell.blank strip) blanks = true ->
  filter (fun l => negb (Shell.blank strip l)) blanks = [].
Proof.
  induction blanks as [|l rest IH]; simpl; [reflexivity|].
  intros H. apply andb_true_iff in H as [Hl Hr]. rewrite Hl. simpl. auto.
Qed.

End Questions.

Lemma ask_count_char int inp :
  match snd (Shell.ask_count int inp) with
  | Some (n, rest) =>
      (0 < n)%Z
      /\ exists refused line,
           inp = refused ++ line :: rest
           /\ int line = Some n
           /\ forallb (Shell.refused_count int) refused = true
           /\ List.length (fst (Shell.ask_count int inp))
              = 2 * List.length refused + 1
  | None => forallb (Shell.refused_count int) inp = true
  end.
Proof.
  induction inp as [|line rest IH]; [reflexivity|].
  cbn [Shell.ask_count forallb].
  assert (B : Shell.refused_count int line
              = match int line with
                | Some n => negb (0 <? n)%Z
                | None => true
                end) by reflexivity.
  destruct (int line) as [n|] eqn:E;
    [destruct (0 <? n)%Z eqn:Hn; cbn [negb] in B|].
  - cbn [snd fst]. split; [now apply Z.ltb_lt|].
    exists [], line. now repeat split.
  - rewrite B.
    destruct (Shell.ask_count int rest) as [evs [[m rest']|]];
      cbn [snd fst andb] in *; [|exact IH].
    destruct IH as [Hm [refused [l [-> [Hl [Hr Hlen]]]]]].
    split; [exact Hm|]. exists (line :: refused), l.
    cbn [forallb List.length]. rewrite B, Hr, Hlen.
    repeat split; auto. lia.
  - rewrite B.
    destruct (Shell.ask_count int rest) as [evs [[m rest']|]];
      cbn [snd fst andb] in *; [|exact IH].
    destruct IH as [Hm [refused [l [-> [Hl [Hr Hlen]]]]]].
    split; [exact Hm|]. exists (line :: refused), l.
    cbn [forallb List.length]. rewrite B, Hr, Hlen.
    repeat split; auto. lia.
Qed.

(** X15.  The first question ends only on a number above zero: the
    answer kept is the first line that [int] reads as positive, the lines
    before it were each refused with one message, and when no line is
    accepted the input runs out. *)
Theorem ask_count_spec int inp :
  match snd (Shell.ask_count int inp) with
  | Some (n, rest) =>
      (0 < n)%Z
      /\ exists refused line,
           inp = refused ++ line :: rest
           /\ int line = Some n
           /\ forallb (Shell.refused_count int) refused = true
           /\ List.length (fst (Shell.ask_count int inp))
              = 2 * List.length refused + 1
  | None => forallb (Shell.refused_count int) inp = true
  end.
Proof. exact (ask_count_char int inp). Qed.

Lemma ask_folders_char strip Path n : forall i inp,
  match snd (Shell.ask_folders strip Path n i inp) with
  | Some (folders, rest) =>
      folders
      = map (fun l => Path (strip l))
          (firstn n (filter (fun l => negb (Shell.blank strip l)) inp))
      /\ List.length folders = n
      /\ exists used, inp = used ++ rest
  | None =>
      List.length (filter (fun l => negb (Shell.blank strip l)) inp) < n
  end.
Proof.
  induction n as [|n IH]; intros i inp.
  - simpl. repeat split. now exists [].
  - cbn [Shell.ask_folders].
    pose proof (ask_path_spec strip Path i inp) as HP.
    destruct (Shell.ask_path strip Path i inp) as [evs [[folder rest]|]];
      cbn [snd] in *.
    + destruct HP as [blanks [line [-> [Hb [Hl ->]]]]].
      specialize (IH (S i) rest).
      rewrite filter_app, (filter_blanks strip blanks Hb). cbn [app filter].
      rewrite Hl. cbn [negb].
      destruct (Shell.ask_folders strip Path n (S i) rest)
        as [evs' [[folders rest']|]]; cbn [snd] in *.
      * destruct IH as [-> [Hlen [used ->]]]. cbn [firstn map].
        split; [reflexivity|]. split; [simpl; now rewrite Hlen|].
        exists (blanks ++ line :: used). now rewrite <- app_assoc.
      * simpl. lia.
    + rewrite (filter_blanks strip inp HP). simpl. lia.
Qed.

(** X16.  The folders asked for are the first [n] answers that are not
    blank once stripped, in order, each stripped and made a path; when
    there are fewer than [n] such answers the input runs out. *)
Theorem ask_folders_spec strip Path n : forall i inp,
  match snd (Shell.ask_folders strip Path n i inp) with
  | Some (folders, rest) =>
      folders
      = map (fun l => Path (strip l))
          (firstn n (filter (fun l => negb (Shell.blank strip l)) inp))
      /\ List.length folders = n
      /\ exists used, inp = used ++ rest
  | None =>
      List.length (filter (fun l => negb (Shell.blank strip l)) inp) < n
  end.
Proof. exact (ask_folders_char strip Path n). Qed.

Lemma ask_extension_char strip inp :
  match snd (Shell.ask_extension strip inp) with
  | Some (extension, rest) =>
      Str.startswith_dot extension = true
      /\ extension <> ""
      /\ exists refused line,
           inp = refused ++ line :: rest
           /\ extension = strip line
           /\ forallb (Shell.no_dot strip) refused = true
  | None => forallb (Shell.no_dot strip) inp = true
  end.
Proof.
  induction inp as [|line rest IH]; [reflexivity|].
  cbn [Shell.ask_extension forallb].
  assert (B : Shell.no_dot strip line
              = negb (Str.startswith_dot (strip line))) by reflexivity.
  destruct (Str.startswith_dot (strip line)) eqn:E; cbn [negb] in B.
  - cbn [snd]. split; [exact E|]. split.
    + intros H. rewrite H in E. discriminate.
    + exists [], line. now repeat split.
  - rewrite B.
    destruct (Shell.ask_extension strip rest) as [evs [[e rest']|]];
      cbn [snd andb] in *; [|exact IH].
    destruct IH as [Hd [Hne [refused [l [-> [He Hr]]]]]].
    split; [exact Hd|]. split; [exact Hne|].
    exists (line :: refused), l. cbn [forallb]. rewrite B, Hr.
    now repeat split.
Qed.

(** X17.  The extension kept starts with a dot, and so is not empty: it
    is the first answer that does once stripped, the answers before it
    having been refused; when no answer does, the input runs out. *)
Theorem ask_extension_spec strip inp :
  match snd (Shell.ask_extension strip inp) with
  | Some (extension, rest) =>
      Str.startswith_dot extension = true
      /\ extension <> ""
      /\ exists refused line,
           inp = refused ++ line :: rest
           /\ extension = strip line
           /\ forallb (Shell.no_dot strip) refused = true
  | None => forallb (Shell.no_dot strip) inp = true
  end.
Proof. exact (ask_extension_char strip inp). Qed.

(** X18.  When the questions are all answered, [main] calls the
    collector with an extension that starts with a dot and with as many
    folders as the number given, which is the first answer that [int]
    reads as a number above zero; so there is at least one folder. *)
Theorem questions_answer int strip Path inp folders extension rest :
  snd (Shell.questions int strip Path inp)
  = Some ((folders, extension), rest) ->
  folders <> []
  /\ Str.startswith_dot extension = true
  /\ exists refused line after n,
       inp = refused ++ line :: after
       /\ forallb (Shell.refused_count int) refused = true
       /\ int line = Some n
       /\ (0 < n)%Z
       /\ List.length folders = Z.to_nat n.
Proof.
  unfold Shell.questions.
  pose proof (ask_count_char int inp) as H1.
  destruct (Shell.ask_count int inp) as [evs1 [[n rest1]|]];
    cbn [snd] in *; [|discriminate].
  destruct H1 as [Hn [refused [line [Hinp [Hline [Href _]]]]]].
  pose proof (ask_folders_char strip Path (Z.to_nat n) 0 rest1) as H2.
  destruct (Shell.ask_folders strip Path (Z.to_nat n) 0 rest1)
    as [evs2 [[fs2 rest2]|]]; cbn [snd] in *; [|discriminate].
  destruct H2 as [_ [Hlen _]].
  pose proof (ask_extension_char strip rest2) as H3.
  destruct (Shell.ask_extension strip rest2) as [evs3 [[e rest3]|]];
    cbn [snd] in *; [|discriminate].
  destruct H3 as [Hd _].
  intros [= -> -> ->]. split; [|split; [exact Hd|]].
  - intros ->. simpl in Hlen. lia.
  - exists refused, line, rest1, n. now repeat split.
Qed.

Lemma questions_answer_witness :
  snd (Shell.questions Shell.int_digit Shell.same Shell.one_part
         ["x"; "0"; "2"; ""; "docs"; "empty"; "txt"; ".txt"])
  = Some (([["docs"]; ["empty"]], ".txt"), [])
  /\ [["docs"]; ["empty"]] <> []
  /\ Str.startswith_dot ".txt" = true.
Proof.
  assert (H : snd (Shell.questions Shell.int_digit Shell.same Shell.one_part
                     ["x"; "0"; "2"; ""; "docs"; "empty"; "txt"; ".txt"])
              = Some (([["docs"]; ["empty"]], ".txt"), [])) by reflexivity.
  split; [exact H|].
  pose proof (questions_answer _ _ _ _ _ _ _ H) as [H1 [H2 _]].
  split; [exact H1 | exact H2].
Defined.




(** ** [main] as a whole *)

(** X21.  When [output.txt] exists, a file was read, and the input runs
    out before the name of the output file is settled, [main] dies on the
    [EOFError] with the temporary file left behind, holding the blocks. *)
Theorem run_leaves_temp_on_eof int strip lower Path fs pl cwd a inp
    folders extension rest old :
  let d := discover lower fs extension folders in
  let run :=
    collect_text_from_folders lower fs pl folders extension false in
  snd (Shell.questions int strip Path inp)
  = Some ((folders, extension), rest) ->
  crashed d = None ->
  (forall q, In q (all_files d) -> Codec.utf8_valid (name q) = true) ->
  existsb Str.truthy (blocks run) = true ->
  cwd (Path "output.txt") = Some old ->
  snd (Shell.choose_output strip lower rest) = None ->
  snd (Shell.run int strip lower Path fs cwd a inp)
  = Shell.Died EOFErr (Some (Main.concat_all (blocks run))).
Proof.
  intros d run Hq Hc Hn Hb Ho He. subst run d. unfold Shell.run.
  destruct (Shell.questions int strip Path inp) as [evs r].
  cbn [snd] in Hq. subst r.
  rewrite collect_spec in * by assumption. cbn [blocks] in *.
  rewrite read_all_sequential in *.
  rewrite (gather_spec lower fs folders extension Hc (steps_valid fs _ Hn)).
  cbn [Main.died Main.has_content Main.seen Main.text].
  rewrite Hb, Ho. cbn [negb].
  destruct (Shell.choose_output strip lower rest) as [evs2 r].
  cbn [snd] in He. now subst r.
Qed.

Lemma run_leaves_temp_on_eof_witness :
  snd (Shell.questions Shell.int_digit Shell.same Shell.one_part
         ["1"; "docs"; ".txt"; "нет"; ""])
  = Some (([["docs"]], ".txt"), ["нет"; ""])
  /\ snd (Shell.choose_output Shell.same Str.lower ["нет"; ""]) = None
  /\ snd (Shell.run Shell.int_digit Shell.same Str.lower Shell.one_part
            Demo.tree (fun _ => Some "old") Main.Written
            ["1"; "docs"; ".txt"; "нет"; ""])
     = Shell.Died EOFErr
         (Some (block ["a.txt"] "hello" ++ block ["b.TXT"] "world")%string).
Proof.
  assert (H : snd (Shell.questions Shell.int_digit Shell.same Shell.one_part
                     ["1"; "docs"; ".txt"; "нет"; ""])
              = Some (([["docs"]], ".txt"), ["нет"; ""])) by reflexivity.
  assert (Hn : forall q,
             In q (all_files (discover Str.lower Demo.tree ".txt"
                                [["docs"]])) ->
             Codec.utf8_valid (name q) = true).
  { intros q [<-|[<-|[<-|[<-|[]]]]]; reflexivity. }
  split; [exact H|]. split; [reflexivity|].
  exact (run_leaves_temp_on_eof Shell.int_digit Shell.same Str.lower
           Shell.one_part Demo.tree Demo.calm (fun _ => Some "old")
           Main.Written _ _ _ _ "old" H eq_refl Hn eq_refl eq_refl
           eq_refl).
Defined.

(** X22.  A folder on which [exists] raises (a folder on the way to it
    may not be searched, or its name is too long) stops everything: unless
    a folder before it did so already, the generator ends on that
    exception without a block, the folders after it are not looked at,
    nothing is said of this folder, and [main] dies with the temporary
    file left behind, empty. *)
Theorem stat_error_stops_everything lower fs pl before folder after e mt
    extension same_file output_name a st :
  exists_ fs folder = Raise e ->
  crashed (discover lower fs extension before) = None ->
  let folders := before ++ folder :: after in
  discover lower fs extension folders
  = {| all_files := all_files (discover lower fs extension before);
       said := said (discover lower fs extension before);
       crashed := Some e |}
  /\ collect_text_from_folders lower fs pl folders extension mt
     = {| blocks := [];
          events := said (discover lower fs extension before);
          raised := Some e |}
  /\ Main.main lower fs folders extension same_file output_name a st
     = {| Main.files :=
            {| Main.temp_file := Some "";
               Main.output_file := Main.output_file st |};
          Main.shown := said (discover lower fs extension before);
          Main.uncaught := Some e |}.
Proof.
  intros He Hc folders.
  assert (Hd : discover lower fs extension folders
               = {| all_files :=
                      all_files (discover lower fs extension before);
                    said := said (discover lower fs extension before);
                    crashed := Some e |}).
  { subst folders. rewrite discover_app, (and_then_ok _ _ Hc).
    simpl. unfold visit, bad_root. rewrite He. simpl.
    now rewrite !app_nil_r. }
  split; [exact Hd|]. split.
  - rewrite (collect_crashed fs lower pl folders extension mt e);
      now rewrite Hd.
  - unfold Main.main.
    rewrite (gather_crashed lower fs folders extension e);
      now rewrite Hd.
Qed.

Lemma stat_error_stops_everything_witness :
  exists_ Hard.tree ["shut"; "key.txt"]
  = Raise (OSErr EACCES ["shut"; "key.txt"])
  /\ crashed (discover Str.lower Hard.tree ".txt" [["nope"]]) = None
  /\ collect_text_from_folders Str.lower Hard.tree Demo.calm
       ([["nope"]] ++ ["shut"; "key.txt"] :: [["open"]]) ".txt" false
     = {| blocks := [];
          events := said (discover Str.lower Hard.tree ".txt" [["nope"]]);
          raised := Some (OSErr EACCES ["shut"; "key.txt"]) |}.
Proof.
  split; [reflexivity|]. split; [reflexivity|].
  exact (proj1 (proj2 (stat_error_stops_everything Str.lower Hard.tree
                         Demo.calm [["nope"]] ["shut"; "key.txt"]
                         [["open"]] _ false ".txt" false "output.txt"
                         Main.Written
                         {| Main.temp_file := None;
                            Main.output_file := None |}
                         eq_refl eq_refl))).
Defined.
